(** * Solar panel monitor: sensor-to-status derivation pipeline

    Shallow embedding of the two sketches [sketch_feb5a.ino] and
    [SolarPanel.ino] (and of the third, web-only variant that ships in the same
    file).  The sketches are near duplicates: each reads a thermistor and a
    photoresistor through the 12-bit ADC, derives a temperature
    (B-parameter Steinhart-Hart equation), a light percentage ([map] and a
    clamp) and a status string, once per sampling period.

    The C++ [float] of the sketches is IEEE-754 binary32 and the literals
    [1.0] and [273.15] are binary64; both are modelled bit-exactly with the
    parametric operations of [SpecFloat].  [int] and [long] are 32 bits wide
    on the ESP32 and are modelled as [Z] with the wrap-around written out. *)

From Stdlib Require Import ZArith QArith Qabs Qround Bool List String Ascii Lia.
From Stdlib Require Import DecimalString.
From Stdlib Require Import Reals Qreals Lra.
From Stdlib Require Import Floats.SpecFloat.
Import ListNotations.

Local Open Scope Z_scope.

(** ** IEEE-754 binary32, the sketches' [float] *)
Module F32.

Definition prec : Z := 24.
Definition emax : Z := 128.

Definition t := spec_float.

(** Conversion [(float) n] of an integer, round to nearest even. *)
Definition of_int (n : Z) : t := binary_normalize prec emax n 0 false.

Definition add : t -> t -> t := SFadd prec emax.
Definition sub : t -> t -> t := SFsub prec emax.
Definition div : t -> t -> t := SFdiv prec emax.

(** The C comparisons; all of them are false on a NaN operand. *)
Definition eqb (x y : t) : bool := SFeqb x y.
Definition ltb (x y : t) : bool := SFltb x y.
Definition leb (x y : t) : bool := SFleb x y.
Definition gtb (x y : t) : bool := SFltb y x.
Definition geb (x y : t) : bool := SFleb y x.

Definition valid (x : t) : bool := valid_binary prec emax x.

Definition is_finite (x : t) : bool :=
  match x with
  | S754_zero _ | S754_finite _ _ _ => true
  | _ => false
  end.

Definition is_nan (x : t) : bool :=
  match x with S754_nan => true | _ => false end.

(** The rational number a finite float stands for, [(-1)^s * m * 2^e]
    (0 for the others). *)
Definition to_Q (x : t) : Q :=
  match x with
  | S754_finite s m e =>
      match e with
      | Zneg k => cond_Zopp s (Zpos m) # 2 ^ k
      | _ => inject_Z (cond_Zopp s (Zpos m) * 2 ^ e)
      end
  | _ => 0%Q
  end.

(** The same number counted in units of the smallest subnormal,
    [2^-149]: an integer for every valid binary32 value. *)
Definition scaled (x : t) : Z :=
  match x with
  | S754_finite s m e => cond_Zopp s (Zpos m * 2 ^ (e + 149))
  | _ => 0
  end.

End F32.

(** ** IEEE-754 binary64, the type of the literals [1.0] and [273.15] *)
Module F64.

Definition prec : Z := 53.
Definition emax : Z := 1024.

Definition t := spec_float.

Definition of_int (n : Z) : t := binary_normalize prec emax n 0 false.

Definition add : t -> t -> t := SFadd prec emax.
Definition sub : t -> t -> t := SFsub prec emax.
Definition div : t -> t -> t := SFdiv prec emax.

(** A decimal literal [n / d] (for instance 273.15 = 27315 / 100): the
    compiler rounds it to the nearest double, which is what the correctly
    rounded division of the two exactly represented integers gives. *)
Definition of_decimal (n d : Z) : t := div (of_int n) (of_int d).

(** Widening [(double) x] of a binary32 value: the same number, with its
    mantissa realigned to 53 bits (nothing is rounded away). *)
Definition of_float (x : F32.t) : t :=
  match x with
  | S754_finite s m e => binary_round prec emax s m e
  | _ => x
  end.

(** Narrowing [(float) x], round to nearest even. *)
Definition to_float (x : t) : F32.t :=
  match x with
  | S754_finite s m e => binary_round F32.prec F32.emax s m e
  | _ => x
  end.

End F64.

(** ** Constants of the sketches *)

Definition SERIES_RESISTOR : F32.t := F32.of_int 10000.
Definition NOMINAL_RESISTANCE : F32.t := F32.of_int 10000.
Definition NOMINAL_TEMPERATURE : F32.t := F32.of_int 25.
Definition B_COEFFICIENT : F32.t := F32.of_int 3950.
Definition ADC_MAX : F32.t := F32.of_int 4095.

(** The thermistor branch of [loop]: resistance of the sensor from the raw
    ADC code [adcTherm]. *)
Definition resistance (adcTherm : Z) : F32.t :=
  if adcTherm =? 0 then F32.of_int 1000000
  else if F32.geb (F32.of_int adcTherm) ADC_MAX then F32.of_int 0
  else F32.div SERIES_RESISTOR
         (F32.sub (F32.div ADC_MAX (F32.of_int adcTherm)) (F32.of_int 1)).


(** ** The derivation shared by the sketches

    The statements below are the same, character for character, in every
    sketch.  [log] comes from the C library; it is the one operation that
    IEEE-754 does not pin down, so the model takes it as a parameter
    [c_log] on binary32 values (the argument and the variable that receives
    the result are both [float]). *)
Section Derivation.

Variable c_log : F32.t -> F32.t.

Definition k_1_0 : F64.t := F64.of_int 1.
Definition k_273_15 : F64.t := F64.of_decimal 27315 100.

(** [steinhart], statement by statement. *)
Definition steinhart_of (resistance : F32.t) : F32.t :=
  let steinhart := F32.div resistance NOMINAL_RESISTANCE in
  let steinhart := c_log steinhart in
  let steinhart := F32.div steinhart B_COEFFICIENT in
  let steinhart :=
    F64.to_float
      (F64.add (F64.of_float steinhart)
         (F64.div k_1_0
            (F64.add (F64.of_float NOMINAL_TEMPERATURE) k_273_15))) in
  let steinhart := F64.to_float (F64.div k_1_0 (F64.of_float steinhart)) in
  let steinhart := F64.to_float (F64.sub (F64.of_float steinhart) k_273_15) in
  steinhart.

Definition temperatureC (adcTherm : Z) : F32.t :=
  steinhart_of (resistance adcTherm).

End Derivation.

(** ** Integer side: [long] arithmetic, [map] and the clamp *)

(** A 32-bit two's complement [long] (the ESP32 is an ILP32 target). *)
Definition wrap32 (z : Z) : Z := (z + 2^31) mod 2^32 - 2^31.

(** [map] of the Arduino core (cores/esp32/WMath.cpp), which the sketches
    call but do not define:
<<
    const long run = in_max - in_min;
    if (run == 0) return -1;
    const long rise = out_max - out_min;
    const long delta = x - in_min;
    return (delta * rise) / run + out_min;
>>
    C division truncates towards zero ([Z.quot]). *)
Definition map (x in_min in_max out_min out_max : Z) : Z :=
  let run := wrap32 (in_max - in_min) in
  if run =? 0 then -1
  else
    let rise := wrap32 (out_max - out_min) in
    let delta := wrap32 (x - in_min) in
    wrap32 (wrap32 (Z.quot (wrap32 (delta * rise)) run) + out_min).

(** The photoresistor branch of [loop]. *)
Definition lightPercent (adcLDR : Z) : Z :=
  let lightPercent := map adcLDR 4095 0 0 100 in
  let lightPercent := if lightPercent <? 0 then 0 else lightPercent in
  let lightPercent := if lightPercent >? 100 then 100 else lightPercent in
  lightPercent.

(** ** Status strings *)

Local Open Scope string_scope.

Definition msg_OK : string := "OK".
Definition msg_NORMAL : string := "System Normal".
Definition msg_WARNING : string := "WARNING: HIGH TEMP!".

(** [needle] occurs somewhere in [hay]: JavaScript's [hay.includes(needle)],
    the test the dashboard applies to the status. *)
Fixpoint includes (needle hay : string) : bool :=
  String.prefix needle hay
  || match hay with
     | EmptyString => false
     | String _ rest => includes needle rest
     end.

(** The two-valued status of the specification. *)
Inductive SystemStatus := NORMAL | HIGH_TEMP_WARNING.

(** The test [steinhart > TEMP_THRESHOLD] of the logic checks. *)
Definition classify (TEMP_THRESHOLD tempC : F32.t) : SystemStatus :=
  if F32.gtb tempC TEMP_THRESHOLD then HIGH_TEMP_WARNING else NORMAL.

Local Close Scope string_scope.

(** ** [sketch_feb5a.ino]: serial monitor only, no state between iterations *)
Module sketch_feb5a.
Section Sketch.

Variable c_log : F32.t -> F32.t.

(** [const float TEMP_THRESHOLD = 30.0;] *)
Definition TEMP_THRESHOLD : F32.t := F64.to_float (F64.of_decimal 300 10).

(** What one iteration prints: [Temp], [Light] and the status message. *)
Record Line := { temp : F32.t; light : Z; statusMsg : string }.

(** One iteration of [loop] on the two values [analogRead] returns. *)
Definition loop (adcTherm adcLDR : Z) : Line :=
  let steinhart := temperatureC c_log adcTherm in
  let lightPercent := lightPercent adcLDR in
  let statusMsg := msg_OK in
  let statusMsg :=
    if F32.gtb steinhart TEMP_THRESHOLD then msg_WARNING else statusMsg in
  {| temp := steinhart; light := lightPercent; statusMsg := statusMsg |}.

End Sketch.
End sketch_feb5a.

(** ** [SolarPanel.ino]: web dashboard, telemetry kept in globals *)
Module SolarPanel.

Local Open Scope string_scope.

(** The double quote, as the C escape writes it. *)
Definition dq : string := String (ascii_of_nat 34) EmptyString.

(** [String(int)]: decimal digits, with a minus sign when negative. *)
Definition String_of_int (n : Z) : string :=
  NilZero.string_of_int (Z.to_int n).

Section Sketch.

Variable c_log : F32.t -> F32.t.
(** [String(float)] of the core prints two decimals; its digits play no
    part in what follows, so it stays a parameter. *)
Variable String_of_float : F32.t -> string.

(** [const float TEMP_THRESHOLD = 32.5;] *)
Definition TEMP_THRESHOLD : F32.t := F64.to_float (F64.of_decimal 325 10).

(** [const long interval = 1000;] *)
Definition interval : Z := 1000.

(** The globals, and the duty cycle last written to the buzzer. *)
Record State := {
  currentTemp : F32.t;
  currentLightPercent : Z;
  currentStatus : string;
  lastTime : Z;
  buzzerDuty : Z
}.

(** After the initialisers and [setup]. *)
Definition initial : State :=
  {| currentTemp := F32.of_int 0;
     currentLightPercent := 0;
     currentStatus := msg_OK;
     lastTime := 0;
     buzzerDuty := 0 |}.

(** What the environment supplies to one iteration of [loop]: the two
    results of [millis()] and the two results of [analogRead]. *)
Record Inputs := {
  millis_test : Z;
  millis_store : Z;
  adcTherm : Z;
  adcLDR : Z
}.

(** [millis() - lastTime > interval] on [unsigned long] (32 bits). *)
Definition due (s : State) (i : Inputs) : bool :=
  (millis_test i - lastTime s) mod 2^32 >? interval.

(** One iteration of [loop]. *)
Definition loop (s : State) (i : Inputs) : State :=
  if due s i then
    let lastTime := millis_store i in
    let steinhart := temperatureC c_log (adcTherm i) in
    let currentTemp := steinhart in
    let lightPercent := lightPercent (adcLDR i) in
    let currentLightPercent := wrap32 lightPercent in
    if F32.gtb currentTemp TEMP_THRESHOLD then
      {| currentTemp := currentTemp;
         currentLightPercent := currentLightPercent;
         currentStatus := msg_WARNING;
         lastTime := lastTime;
         buzzerDuty := 128 |}
    else
      {| currentTemp := currentTemp;
         currentLightPercent := currentLightPercent;
         currentStatus := msg_NORMAL;
         lastTime := lastTime;
         buzzerDuty := 0 |}
  else s.

(** The body that [handleReadings] sends for [GET /readings]. *)
Definition handleReadings (s : State) : string :=
  let json := "{" in
  let json :=
    json ++ ((dq ++ "temp" ++ dq ++ ":") ++ String_of_float (currentTemp s) ++ ",") in
  let json :=
    json ++ ((dq ++ "light" ++ dq ++ ":") ++ String_of_int (currentLightPercent s) ++ ",") in
  let json :=
    json ++ ((dq ++ "status" ++ dq ++ ":" ++ dq) ++ currentStatus s ++ dq) in
  let json := json ++ "}" in
  json.

(** The states the firmware can be in: after [setup], and after any number
    of iterations of [loop] on any inputs. *)
Inductive reachable : State -> Prop :=
| reach_setup : reachable initial
| reach_loop s i : reachable s -> reachable (loop s i).

(** The telemetry triple a state holds. *)
Definition snapshot (s : State) : F32.t * Z * string :=
  (currentTemp s, currentLightPercent s, currentStatus s).

End Sketch.
End SolarPanel.

(** ** What the specification says about the light percentage *)

(** The exact value of the inverted linear map, [100 - (raw / ADC_MAX) * 100]. *)
Definition percent_exact (raw : Z) : Q := 100 - (inject_Z raw / 4095) * 100.

(** [n] is an integer nearest to [x]. *)
Definition is_nearest_integer (n : Z) (x : Q) : Prop :=
  (Qabs (inject_Z n - x) <= 1 # 2)%Q.

(** ** What the specification says about the resistance *)

(** The quotient [R_S / (ADC_MAX / raw - 1)] in exact arithmetic. *)
Definition resistance_exact (raw : Z) : Q :=
  10000 / (4095 / inject_Z raw - 1).

(** ** The resistance in exact arithmetic

    The resistance statement with every rounding removed: what the [float]
    computation approximates on the codes below ADC_MAX. *)
Module Ideal.

Local Open Scope R_scope.

Definition resistance (adcTherm : Z) : R :=
  if (adcTherm =? 0)%Z then 1000000
  else if (4095 <=? adcTherm)%Z then 0
  else 10000 / (4095 / IZR adcTherm - 1).

End Ideal.

(** ** Support for the proofs *)

(** A crude stand-in for the C library's [log] (the first-order expansion
    [x - 1] around 1), used only to run the model on concrete inputs; no
    statement depends on it. *)
Definition log_linear (x : F32.t) : F32.t := F32.sub x (F32.of_int 1).

(** A stand-in for [String(float)] in the same role: the integral part is
    left out and a fixed fraction is printed. *)
Definition String_fixed (x : F32.t) : string := "0.00"%string.

(** The [n] consecutive raw codes from [lo] on. *)
Definition codes (lo : Z) (n : nat) : list Z :=
  List.map (fun k => lo + Z.of_nat k) (seq 0 n).

(** A raw code gives a valid finite resistance that is below the resistance
    of the next code. *)
Definition resistance_step_ok (r : Z) : bool :=
  F32.valid (resistance r) && F32.is_finite (resistance r)
  && (F32.scaled (resistance r) <? F32.scaled (resistance (r + 1))).

Definition resistance_finite_ok (r : Z) : bool :=
  F32.valid (resistance r) && F32.is_finite (resistance r).

(** The binary32 result is within 1/50000 of the exact quotient. *)
Definition resistance_close (r : Z) : bool :=
  Qle_bool
    (Qabs (F32.to_Q (resistance r) - resistance_exact r))
    (resistance_exact r * (1 # 50000)).

(** ** Accuracy of the C library's [log] *)

(** The real number a binary32 value stands for. *)
Definition float_value (x : F32.t) : R := Q2R (F32.to_Q x).

(** [c_log x] is a finite binary32 number next to the true logarithm of [x]:
    at most one binary32 number lies strictly between the two (an error
    below two units in the last place). *)
Definition log_accurate (c_log : F32.t -> F32.t) (x : F32.t) : Prop :=
  F32.valid (c_log x) = true /\ F32.is_finite (c_log x) = true
  /\ forall z1 z2,
       F32.valid z1 = true -> F32.is_finite z1 = true ->
       F32.valid z2 = true -> F32.is_finite z2 = true ->
       (float_value z1 < float_value z2)%R ->
       ~ (float_value (c_log x) < float_value z1
          /\ float_value z2 < ln (float_value x))%R
       /\ ~ (ln (float_value x) < float_value z1
             /\ float_value z2 < float_value (c_log x))%R.

(** The constants of the statements after [log], evaluated once:
    [B_COEFFICIENT], [1.0], [273.15] and [1.0 / (NOMINAL_TEMPERATURE + 273.15)]. *)
Definition B_value : F32.t := Eval vm_compute in B_COEFFICIENT.
Definition one_value : F64.t := Eval vm_compute in k_1_0.
Definition kelvin_value : F64.t := Eval vm_compute in k_273_15.
Definition inverse_T0_value : F64.t :=
  Eval vm_compute in
    F64.div k_1_0 (F64.add (F64.of_float NOMINAL_TEMPERATURE) k_273_15).

(** [steinhart] from the statement after the call of [log] on: what the
    sketch does with the logarithm [y]. *)
Definition steinhart_after_log (y : F32.t) : F32.t :=
  let steinhart := F32.div y B_value in
  let steinhart :=
    F64.to_float (F64.add (F64.of_float steinhart) inverse_T0_value) in
  let steinhart := F64.to_float (F64.div one_value (F64.of_float steinhart)) in
  let steinhart :=
    F64.to_float (F64.sub (F64.of_float steinhart) kelvin_value) in
  steinhart.

(** The argument the sketch hands to [log] at raw code [adcTherm]. *)
Definition log_argument (adcTherm : Z) : F32.t :=
  F32.div (resistance adcTherm) NOMINAL_RESISTANCE.

(** *** A numeric logarithm, to propose candidates

    Fixed point with 64 fraction bits: [ln (m * 2^e)] from
    [ln t = 2 atanh ((t - 1) / (t + 1))] on [1 <= t < 2] and a stored
    [ln 2].  Nothing is assumed of it: what it proposes is checked. *)
Definition ln2_fx : Z := 12786308645202655659.

Fixpoint atanh_sum (fuel : nat) (zpow z2 j : Z) : Z :=
  match fuel with
  | O => 0
  | S fuel' =>
      zpow / j + atanh_sum fuel' (Z.shiftr (zpow * z2) 64) z2 (j + 2)
  end.

Definition ln_fx (m : positive) (e : Z) : Z :=
  let d := Z.log2 (Zpos m) in
  let top := 2 ^ d in
  let z := Z.shiftl (Zpos m - top) 64 / (Zpos m + top) in
  (e + d) * ln2_fx + 2 * atanh_sum 18 z (Z.shiftr (z * z) 64) 1.

(** Sign, 24-bit mantissa and exponent of the binary32 number nearest to
    the numeric logarithm. *)
Definition log_center (x : F32.t) : bool * Z * Z :=
  match x with
  | S754_finite false m e =>
      let l := ln_fx m e in
      let a := Z.abs l in
      let sh := Z.log2 a + 1 - 24 in
      (l <? 0, Z.shiftr (a + 2 ^ (sh - 1)) sh, sh - 64)
  | _ => (false, 0, 0)
  end.

(** The binary32 number [j] places above the centre [c]. *)
Definition near (c : bool * Z * Z) (j : Z) : F32.t :=
  let '(s, m, e) := c in
  S754_finite s (Z.to_pos (if s then m - j else m + j)) e.

Definition candidates (c : bool * Z * Z) : list F32.t :=
  List.map (near c) [-2; -1; 0; 1; 2].

(** *** Certified enclosures of the exponential

    Fixed point with [cert_w] fraction bits; [(1 + a / 2^k) ^ (2^k)] from
    below and [(1 - a / 2^k) ^ -(2^k)] from above, by [k] squarings. *)
Definition cert_w : Z := 56.

(** Squarings that resolve a quarter of a unit in the last place of a
    logarithm of exponent [e]. *)
Definition cert_k (c : bool * Z * Z) : nat := Z.to_nat (Z.max 8 (snd c + 48)).

Fixpoint sqr_down (k : nat) (c : Z) : Z :=
  match k with
  | O => c
  | S k' => sqr_down k' (Z.shiftr (c * c) cert_w)
  end.

Fixpoint sqr_up (k : nat) (c : Z) : Z :=
  match k with
  | O => c
  | S k' => sqr_up k' (Z.shiftr (c * c + (2 ^ cert_w - 1)) cert_w)
  end.

Definition exp_down (k : nat) (a : Q) : Z :=
  let d := 2 ^ Z.of_nat k * Zpos (Qden a) in
  sqr_down k (2 ^ cert_w * (d + Qnum a) / d).

Definition exp_up (k : nat) (a : Q) : Z :=
  let d := 2 ^ Z.of_nat k * Zpos (Qden a) in
  let d' := d - Qnum a in
  sqr_up k ((2 ^ cert_w * d + d' - 1) / d').

(** [x < exp a], certified. *)
Definition exp_above (k : nat) (a x : Q) : bool :=
  (0 <=? 2 ^ Z.of_nat k * Zpos (Qden a) + Qnum a)
  && (Qnum x * 2 ^ cert_w <? exp_down k a * Zpos (Qden x)).

(** [exp a < x], certified. *)
Definition exp_below (k : nat) (a x : Q) : bool :=
  (0 <? 2 ^ Z.of_nat k * Zpos (Qden a) - Qnum a)
  && (exp_up k a * Zpos (Qden x) <? Qnum x * 2 ^ cert_w).

(** The logarithm of [x] lies strictly between the candidates one place
    below and one place above the centre [c], and the five candidates are
    valid. *)
Definition log_bracket_ok (x : F32.t) (c : bool * Z * Z) : bool :=
  F32.valid x && F32.is_finite x && (0 <? F32.scaled x)
  && (2 <? snd (fst c)) && forallb F32.valid (candidates c)
  && exp_below (cert_k c) (F32.to_Q (near c (-1))) (F32.to_Q x)
  && exp_above (cert_k c) (F32.to_Q (near c 1)) (F32.to_Q x).

(** The temperatures the candidates lead to, in units of [2^-149]: the
    least and the greatest, when all of them are finite. *)
Definition temperature_span (x : F32.t) : option (Z * Z) :=
  let c := log_center x in
  let ts := List.map steinhart_after_log (candidates c) in
  if log_bracket_ok x c
     && forallb (fun t => F32.valid t && F32.is_finite t) ts
  then
    let vs := List.map F32.scaled ts in
    Some (fold_right Z.min (hd 0 vs) vs, fold_right Z.max (hd 0 vs) vs)
  else None.

(** Each span lies strictly below the one before it. *)
Fixpoint spans_descend (l : list (option (Z * Z))) : bool :=
  match l with
  | Some (lo1, hi1) :: ((Some (lo2, hi2) :: _) as rest) =>
      (hi2 <? lo1) && spans_descend rest
  | [Some _] => true
  | _ => false
  end.

(** The binary32 number nearest to the numeric logarithm: a concrete [log]
    to run the model with. *)
Definition log_nearest (x : F32.t) : F32.t := near (log_center x) 0.

(** The span of temperatures at a raw code, and the spans of the interior
    codes in order. *)
Definition span_of (adcTherm : Z) : option (Z * Z) :=
  temperature_span (log_argument adcTherm).

Definition all_spans : list (option (Z * Z)) :=
  List.map span_of (codes 1 4094).

Definition span_low (adcTherm : Z) : Z :=
  match span_of adcTherm with Some (lo, _) => lo | None => 0 end.

Definition span_high (adcTherm : Z) : Z :=
  match span_of adcTherm with Some (_, hi) => hi | None => 0 end.

(** * Properties *)

(** ** Order of binary32 values *)
Module F32Facts.

Lemma digits2_size p : digits2_pos p = Pos.size p.
Proof. induction p; cbn; congruence. Qed.

Lemma digits2_bounds m :
  2 ^ (Zpos (digits2_pos m) - 1) <= Zpos m < 2 ^ Zpos (digits2_pos m).
Proof.
  rewrite digits2_size. split.
  - pose proof (Pos.size_le m) as H.
    assert (H' : 2 ^ Zpos (Pos.size m) <= 2 * Zpos m).
    { rewrite <- Pos2Z.inj_pow. change (2 * Zpos m) with (Zpos m~0).
      apply Pos2Z.pos_le_pos. exact H. }
    replace (Zpos (Pos.size m)) with (Z.succ (Zpos (Pos.size m) - 1)) in H'
      by lia.
    rewrite Z.pow_succ_r in H' by lia. lia.
  - rewrite <- Pos2Z.inj_pow. apply Pos2Z.pos_lt_pos, Pos.size_gt.
Qed.

(** What validity says of a finite value: the exponent is in range, the
    mantissa has at most 24 bits, and exactly 24 unless the value is
    subnormal. *)
Lemma valid_finite s m e :
  F32.valid (S754_finite s m e) = true ->
  - 149 <= e <= 104 /\ Zpos m < 2 ^ 24 /\ (- 149 < e -> 2 ^ 23 <= Zpos m).
Proof.
  unfold F32.valid, valid_binary, bounded, canonical_mantissa, fexp, emin,
    F32.prec, F32.emax.
  intros H. apply andb_prop in H as [Hc He].
  apply Z.eqb_eq in Hc. apply Z.leb_le in He.
  pose proof (digits2_bounds m) as [Hlo Hhi].
  set (d := Zpos (digits2_pos m)) in *.
  assert (Hd : d <= 24) by lia.
  split; [lia|]. split.
  - apply Z.lt_le_trans with (1 := Hhi).
    apply Z.pow_le_mono_r; lia.
  - intros Hn. assert (d = 24) by lia.
    replace 23 with (d - 1) by lia. exact Hlo.
Qed.

(** Between valid positive values the exponent decides first. *)
Lemma scaled_exponent_lt m1 e1 m2 e2 :
  F32.valid (S754_finite false m1 e1) = true ->
  F32.valid (S754_finite false m2 e2) = true ->
  e1 < e2 ->
  Zpos m1 * 2 ^ (e1 + 149) < Zpos m2 * 2 ^ (e2 + 149).
Proof.
  intros H1 H2 Hlt.
  apply valid_finite in H1 as (He1 & Hm1 & _).
  apply valid_finite in H2 as (He2 & _ & Hm2).
  specialize (Hm2 ltac:(lia)).
  replace (e2 + 149) with ((e1 + 149) + (e2 - e1)) by lia.
  rewrite (Z.pow_add_r 2 (e1 + 149) (e2 - e1)) by lia.
  assert (Hk : 0 < 2 ^ (e1 + 149)) by (apply Z.pow_pos_nonneg; lia).
  assert (Hj : 2 ^ 1 <= 2 ^ (e2 - e1)) by (apply Z.pow_le_mono_r; lia).
  change (2 ^ 1) with 2 in Hj.
  change (2 ^ 24) with 16777216 in Hm1.
  change (2 ^ 23) with 8388608 in Hm2.
  apply Z.lt_le_trans with (16777216 * 2 ^ (e1 + 149)).
  - apply Z.mul_lt_mono_pos_r; assumption.
  - replace (Zpos m2 * (2 ^ (e1 + 149) * 2 ^ (e2 - e1)))
      with ((Zpos m2 * 2 ^ (e2 - e1)) * 2 ^ (e1 + 149)) by ring.
    apply Z.mul_le_mono_nonneg_r; [lia|]. nia.
Qed.

Lemma scaled_magnitude_pos m e : - 149 <= e -> 0 < Zpos m * 2 ^ (e + 149).
Proof.
  intros He. apply Z.mul_pos_pos; [lia|].
  apply Z.pow_pos_nonneg; lia.
Qed.

(** The IEEE comparison of two valid finite values is the comparison of
    the numbers they stand for. *)
Lemma compare_scaled x y :
  F32.valid x = true -> F32.valid y = true ->
  F32.is_finite x = true -> F32.is_finite y = true ->
  SFcompare x y = Some (F32.scaled x ?= F32.scaled y).
Proof.
  intros Vx Vy Fx Fy.
  destruct x as [sx| | |sx mx ex], y as [sy| | |sy my ey];
    try discriminate; cbn [SFcompare F32.scaled].
  - reflexivity.
  - pose proof (valid_finite _ _ _ Vy) as (He & _).
    pose proof (scaled_magnitude_pos my ey ltac:(lia)) as Hp.
    destruct sy; cbn [cond_Zopp]; f_equal; symmetry.
    + apply Z.compare_gt_iff. lia.
    + apply Z.compare_lt_iff. lia.
  - pose proof (valid_finite _ _ _ Vx) as (He & _).
    pose proof (scaled_magnitude_pos mx ex ltac:(lia)) as Hp.
    destruct sx; cbn [cond_Zopp]; f_equal; symmetry.
    + apply Z.compare_lt_iff. lia.
    + apply Z.compare_gt_iff. lia.
  - pose proof (valid_finite _ _ _ Vx) as (Hex & _).
    pose proof (valid_finite _ _ _ Vy) as (Hey & _).
    pose proof (scaled_magnitude_pos mx ex ltac:(lia)) as Hpx.
    pose proof (scaled_magnitude_pos my ey ltac:(lia)) as Hpy.
    assert (Hsame : ex = ey ->
              Pos.compare_cont Eq mx my
              = (Zpos mx * 2 ^ (ex + 149) ?= Zpos my * 2 ^ (ey + 149))).
    { intros ->.
      rewrite <- Zmult_compare_compat_r
        by (apply Z.lt_gt, Z.pow_pos_nonneg; lia).
      reflexivity. }
    destruct sx, sy; cbn [cond_Zopp]; f_equal.
    + (* both negative *)
      rewrite Z.compare_opp.
      destruct (Z.compare_spec ex ey) as [E|L|G].
      * rewrite (Hsame E). symmetry. apply Z.compare_antisym.
      * symmetry. apply Z.compare_gt_iff.
        apply scaled_exponent_lt; [exact Vx|exact Vy|exact L].
      * symmetry. apply Z.compare_lt_iff.
        apply scaled_exponent_lt; [exact Vy|exact Vx|exact G].
    + symmetry. apply Z.compare_lt_iff. lia.
    + symmetry. apply Z.compare_gt_iff. lia.
    + destruct (Z.compare_spec ex ey) as [E|L|G].
      * exact (Hsame E).
      * symmetry. apply Z.compare_lt_iff.
        apply scaled_exponent_lt; assumption.
      * symmetry. apply Z.compare_gt_iff.
        apply scaled_exponent_lt; assumption.
Qed.

Lemma cond_Zopp_mul s a b : cond_Zopp s a * b = cond_Zopp s (a * b).
Proof. destruct s; cbn [cond_Zopp]; ring. Qed.

(** [scaled] counts the value in units of [2^-149]. *)
Lemma to_Q_scaled x :
  F32.valid x = true -> (F32.to_Q x == F32.scaled x # 2 ^ 149)%Q.
Proof.
  destruct x as [s| | |s m e]; try reflexivity.
  intros V. apply valid_finite in V as (He & _).
  unfold F32.to_Q, F32.scaled, Qeq.
  destruct e as [|k|k]; cbn [Qnum Qden inject_Z].
  - rewrite !cond_Zopp_mul. f_equal.
    rewrite Pos2Z.inj_pow. cbn [Z.add]. ring.
  - rewrite !cond_Zopp_mul. f_equal.
    rewrite Pos2Z.inj_pow, Z.pow_add_r by lia. ring.
  - rewrite !cond_Zopp_mul. f_equal.
    rewrite !Pos2Z.inj_pow.
    rewrite <- Z.mul_assoc, <- Z.pow_add_r by lia.
    f_equal. f_equal. lia.
Qed.

Lemma Qcompare_scaled x y :
  F32.valid x = true -> F32.valid y = true ->
  (F32.to_Q x ?= F32.to_Q y)%Q = (F32.scaled x ?= F32.scaled y).
Proof.
  intros Vx Vy.
  rewrite (to_Q_scaled x Vx), (to_Q_scaled y Vy).
  unfold Qcompare; cbn [Qnum Qden].
  symmetry. apply Zmult_compare_compat_r. reflexivity.
Qed.

(** [<] of C on valid finite floats is [<] of the numbers. *)
Lemma ltb_to_Q x y :
  F32.valid x = true -> F32.valid y = true ->
  F32.is_finite x = true -> F32.is_finite y = true ->
  (F32.ltb x y = true <-> (F32.to_Q x < F32.to_Q y)%Q).
Proof.
  intros Vx Vy Fx Fy.
  unfold F32.ltb, SFltb.
  rewrite (compare_scaled x y Vx Vy Fx Fy), <- (Qcompare_scaled x y Vx Vy).
  rewrite Qlt_alt.
  destruct (F32.to_Q x ?= F32.to_Q y)%Q; split; congruence.
Qed.

(** [==] of C on valid finite floats is equality of the numbers. *)
Lemma eqb_to_Q x y :
  F32.valid x = true -> F32.valid y = true ->
  F32.is_finite x = true -> F32.is_finite y = true ->
  (F32.eqb x y = true <-> (F32.to_Q x == F32.to_Q y)%Q).
Proof.
  intros Vx Vy Fx Fy.
  unfold F32.eqb, SFeqb.
  rewrite (compare_scaled x y Vx Vy Fx Fy), <- (Qcompare_scaled x y Vx Vy).
  rewrite Qeq_alt.
  destruct (F32.to_Q x ?= F32.to_Q y)%Q; split; congruence.
Qed.

End F32Facts.

(** ** Conversion of an integer to binary32 *)
Module OfInt.

(** One step of the shifter halves the mantissa. *)
Lemma shr_1_m mrs :
  0 <= shr_m mrs -> shr_m (shr_1 mrs) = shr_m mrs / 2.
Proof.
  destruct mrs as [m r s]. cbn [shr_m]. intros Hm.
  rewrite <- Z.div2_div.
  destruct m as [|[p|p|]|p]; cbn; try reflexivity; lia.
Qed.

Lemma iter_shr_1_m k : forall mrs,
  0 <= shr_m mrs ->
  shr_m (iter_pos shr_1 k mrs) = shr_m mrs / 2 ^ Zpos k.
Proof.
  assert (Hnn : forall mrs, 0 <= shr_m mrs -> 0 <= shr_m mrs / 2).
  { intros mrs H. apply Z.div_pos; lia. }
  induction k as [k IH|k IH|]; intros mrs Hm; cbn [iter_pos].
  - assert (H1 : 0 <= shr_m (shr_1 mrs)) by (rewrite shr_1_m; auto).
    assert (H2 : 0 <= shr_m (iter_pos shr_1 k (shr_1 mrs))).
    { rewrite IH by exact H1. apply Z.div_pos; [exact H1|].
      apply Z.pow_pos_nonneg; lia. }
    rewrite IH, IH, shr_1_m by assumption.
    rewrite !Z.div_div by (try apply Z.pow_pos_nonneg; lia).
    f_equal.
    replace (Zpos k~1) with (1 + Zpos k + Zpos k) by lia.
    rewrite !Z.pow_add_r by lia. change (2 ^ 1) with 2. ring.
  - assert (H2 : 0 <= shr_m (iter_pos shr_1 k mrs)).
    { rewrite IH by exact Hm. apply Z.div_pos; [exact Hm|].
      apply Z.pow_pos_nonneg; lia. }
    rewrite IH, IH by assumption.
    rewrite !Z.div_div by (try apply Z.pow_pos_nonneg; lia).
    f_equal.
    replace (Zpos k~0) with (Zpos k + Zpos k) by lia.
    rewrite !Z.pow_add_r by lia. ring.
  - rewrite shr_1_m by exact Hm. reflexivity.
Qed.

(** Away from the subnormal range, realigning a positive mantissa keeps it
    positive and does not lower the exponent. *)
Lemma shr_fexp_positive m0 e mrs e1 :
  - 126 <= e ->
  shr_fexp F32.prec F32.emax (Zpos m0) e loc_Exact = (mrs, e1) ->
  (exists m1, shr_m mrs = Zpos m1) /\ e <= e1.
Proof.
  intros He. unfold shr_fexp, shr, fexp, emin, F32.prec, F32.emax.
  cbn [Zdigits2 shr_record_of_loc].
  pose proof (F32Facts.digits2_bounds m0) as [Hlo _].
  set (d := Zpos (digits2_pos m0)) in *.
  assert (Hd : 0 < d) by (unfold d; lia).
  replace (Z.max (d + e - 24) (3 - 128 - 24) - e) with (d - 24) by lia.
  destruct (d - 24) as [|k|k] eqn:Hk; intros [= <- <-].
  - split; [now exists m0|lia].
  - split; [|lia].
    rewrite iter_shr_1_m by (cbn; lia). cbn [shr_m].
    assert (Hq : 0 < Zpos m0 / 2 ^ Zpos k).
    { apply Z.div_str_pos. split; [apply Z.pow_pos_nonneg; lia|].
      apply Z.le_trans with (2 := Hlo).
      apply Z.pow_le_mono_r; lia. }
    destruct (Zpos m0 / 2 ^ Zpos k) as [|q|q]; try lia. now exists q.
  - split; [now exists m0|lia].
Qed.

Lemma round_nearest_even_positive m l :
  exists m', round_nearest_even (Zpos m) l = Zpos m'.
Proof.
  unfold round_nearest_even.
  destruct l as [|[| |]]; try (now exists m); try (now exists (m + 1)%positive).
  destruct (Z.even (Zpos m)); [now exists m|now exists (m + 1)%positive].
Qed.

(** Rounding a positive number [m * 2^e] that is not in the subnormal
    range gives a positive float whose exponent is at least [e], or
    overflows to plus infinity. *)
Lemma binary_round_aux_positive m e :
  - 126 <= e ->
  (exists m' e', binary_round_aux F32.prec F32.emax false (Zpos m) e loc_Exact
                 = S754_finite false m' e' /\ e <= e')
  \/ binary_round_aux F32.prec F32.emax false (Zpos m) e loc_Exact = S754_infinity false.
Proof.
  intros He. unfold binary_round_aux.
  destruct (shr_fexp F32.prec F32.emax (Zpos m) e loc_Exact) as [mrs1 e1] eqn:E1.
  destruct (shr_fexp_positive _ _ _ _ He E1) as [[m1 Hm1] He1].
  rewrite Hm1.
  destruct (round_nearest_even_positive m1 (loc_of_shr_record mrs1))
    as [m2 Hm2].
  rewrite Hm2.
  destruct (shr_fexp F32.prec F32.emax (Zpos m2) e1 loc_Exact) as [mrs3 e3] eqn:E3.
  assert (He1' : - 126 <= e1) by lia.
  destruct (shr_fexp_positive _ _ _ _ He1' E3) as [[m3 Hm3] He3].
  rewrite Hm3.
  destruct (e3 <=? F32.emax - F32.prec); [left|now right].
  exists m3, e3. split; [reflexivity|lia].
Qed.

End OfInt.

(** ** Checking a property on every code of a range *)

Lemma forallb_codes (f : Z -> bool) lo n :
  forallb f (codes lo n) = true ->
  forall z, lo <= z < lo + Z.of_nat n -> f z = true.
Proof.
  intros H z Hz. rewrite forallb_forall in H. apply H.
  unfold codes. apply in_map_iff. exists (Z.to_nat (z - lo)). split.
  - rewrite Z2Nat.id; lia.
  - apply in_seq. lia.
Qed.

(** A function that grows from each code to the next grows along the whole
    range. *)
Lemma increasing_by_steps (g : Z -> Z) lo hi :
  (forall r, lo <= r < hi -> g r < g (r + 1)) ->
  forall r1 r2, lo <= r1 -> r1 < r2 -> r2 <= hi -> g r1 < g r2.
Proof.
  intros Hstep r1 r2 Hlo Hlt Hhi.
  replace r2 with (r1 + 1 + (r2 - r1 - 1)) in * by lia.
  assert (Hk : 0 <= r2 - r1 - 1) by lia.
  revert Hhi. generalize (r2 - r1 - 1) Hk. clear Hlt Hk r2.
  apply (natlike_ind (fun k => r1 + 1 + k <= hi -> g r1 < g (r1 + 1 + k))).
  - intros H. rewrite Z.add_0_r. apply Hstep. lia.
  - intros k Hk IH H.
    apply Z.lt_trans with (g (r1 + 1 + k)); [apply IH; lia|].
    replace (r1 + 1 + Z.succ k) with (r1 + 1 + k + 1) by lia.
    apply Hstep. lia.
Qed.

(** ** The resistance in exact arithmetic *)

Module IdealFacts.
Import Ideal.
Local Open Scope R_scope.

Lemma resistance_interior r :
  (0 < r < 4095)%Z -> resistance r = 10000 / (4095 / IZR r - 1).
Proof.
  intros H. unfold resistance.
  replace (r =? 0)%Z with false by (symmetry; apply Z.eqb_neq; lia).
  replace (4095 <=? r)%Z with false by (symmetry; apply Z.leb_gt; lia).
  reflexivity.
Qed.

(** Inside the range the divider's denominator is positive and at most
    4094. *)
Lemma divider_bounds r :
  (0 < r < 4095)%Z -> 0 < 4095 / IZR r - 1 <= 4094.
Proof.
  intros [H0 H1].
  assert (Hx : 1 <= IZR r) by (apply IZR_le; lia).
  assert (Hy : IZR r <= 4094) by (apply IZR_le; lia).
  assert (Hi : 0 < / IZR r) by (apply Rinv_0_lt_compat; lra).
  assert (Hi1 : / IZR r <= 1).
  { rewrite <- Rinv_1. apply Rinv_le_contravar; lra. }
  assert (Hm : IZR r * / IZR r = 1) by (apply Rinv_r; lra).
  unfold Rdiv. split; nra.
Qed.

Lemma divider_decreasing r1 r2 :
  (0 < r1)%Z -> (r1 < r2)%Z ->
  4095 / IZR r2 - 1 < 4095 / IZR r1 - 1.
Proof.
  intros H0 H12.
  assert (Hx : 1 <= IZR r1) by (apply IZR_le; lia).
  assert (Hlt : IZR r1 < IZR r2) by (apply IZR_lt; lia).
  assert (Hinv : / IZR r2 < / IZR r1).
  { apply Rinv_lt_contravar; [nra|exact Hlt]. }
  unfold Rdiv. lra.
Qed.

Lemma resistance_positive r : (0 < r < 4095)%Z -> 0 < resistance r.
Proof.
  intros H. rewrite (resistance_interior r H).
  destruct (divider_bounds r H) as [Hd _].
  apply Rdiv_lt_0_compat; lra.
Qed.

(** In exact arithmetic too the resistance grows with the raw code. *)
Lemma ideal_resistance_increasing r1 r2 :
  (0 < r1)%Z -> (r1 < r2)%Z -> (r2 < 4095)%Z ->
  resistance r1 < resistance r2.
Proof.
  intros H0 H12 Hmax.
  rewrite (resistance_interior r1), (resistance_interior r2) by lia.
  destruct (divider_bounds r2 ltac:(lia)) as [Hd2 _].
  pose proof (divider_decreasing r1 r2 H0 H12) as Hlt.
  unfold Rdiv at 1 3.
  apply Rmult_lt_compat_l; [lra|].
  apply Rinv_lt_contravar; [nra|exact Hlt].
Qed.

End IdealFacts.

(** ** Thermal model: resistance *)

(** The constants are the numbers the sketch writes. *)
Lemma constants_exact :
  (F32.to_Q SERIES_RESISTOR == 10000)%Q /\ (F32.to_Q ADC_MAX == 4095)%Q
  /\ (F32.to_Q NOMINAL_RESISTANCE == 10000)%Q
  /\ (F32.to_Q B_COEFFICIENT == 3950)%Q
  /\ (F32.to_Q NOMINAL_TEMPERATURE == 25)%Q.
Proof. repeat split. Qed.

(** [adcTherm >= ADC_MAX] holds from 4095 on, however large the code. *)
Lemma geb_ADC_MAX_high raw :
  4095 <= raw -> F32.geb (F32.of_int raw) ADC_MAX = true.
Proof.
  intros H.
  destruct (Z.eq_dec raw 4095) as [->|Hne]; [reflexivity|].
  destruct raw as [|p|p]; try lia.
  unfold F32.of_int, binary_normalize, binary_round.
  pose proof (F32Facts.digits2_bounds p) as [_ Hhi].
  remember (Zpos (digits2_pos p)) as d eqn:Hdef. clear Hdef.
  assert (Hd : 13 <= d).
  { destruct (Z_lt_le_dec d 13) as [Hs|]; [|assumption].
    assert (2 ^ d <= 2 ^ 12) by (apply Z.pow_le_mono_r; lia).
    change (2 ^ 12) with 4096 in *. lia. }
  destruct (shl_align p 0 (fexp F32.prec F32.emax (d + 0))) as [mz ez] eqn:Ea.
  assert (Hez : - 11 <= ez).
  { revert Ea. unfold shl_align, fexp, emin, F32.prec, F32.emax.
    destruct (Z.max (d + 0 - 24) (3 - 128 - 24) - 0) eqn:Ed;
      intros [= <- <-]; lia. }
  destruct (OfInt.binary_round_aux_positive mz ez ltac:(lia))
    as [(m' & e' & -> & He')| ->].
  - unfold F32.geb, SFleb, ADC_MAX. cbn.
    destruct e' as [|q|q]; try reflexivity.
    assert (Hq : (q < 12)%positive) by lia.
    rewrite <- Pos.compare_lt_iff in Hq.
    cbn. rewrite Pos.compare_antisym, Hq. reflexivity.
  - reflexivity.
Qed.

(** [adcTherm >= ADC_MAX] fails on every code below 4095. *)
Lemma geb_ADC_MAX_low raw :
  0 < raw < 4095 -> F32.geb (F32.of_int raw) ADC_MAX = false.
Proof.
  intros H.
  apply negb_true_iff.
  apply (forallb_codes (fun r => negb (F32.geb (F32.of_int r) ADC_MAX))
           1 4094); [vm_compute; reflexivity|lia].
Qed.

(** C1: the resistance is exactly 1,000,000 at raw code 0, exactly 0 at every
    raw code from ADC_MAX (4095) on, and
    [SERIES_RESISTOR / (ADC_MAX / rawCode - 1)], evaluated in [float], at
    every raw code strictly in between, with SERIES_RESISTOR = 10000. *)
Theorem resistance_cases :
  (resistance 0 = F32.of_int 1000000
   /\ (F32.to_Q (resistance 0) == 1000000)%Q)
  /\ (forall raw, 4095 <= raw ->
        resistance raw = F32.of_int 0 /\ (F32.to_Q (resistance raw) == 0)%Q)
  /\ (forall raw, 0 < raw < 4095 ->
        resistance raw
        = F32.div SERIES_RESISTOR
            (F32.sub (F32.div ADC_MAX (F32.of_int raw)) (F32.of_int 1)))
  /\ (F32.to_Q SERIES_RESISTOR == 10000)%Q
  /\ (F32.to_Q ADC_MAX == 4095)%Q.
Proof.
  split; [split; reflexivity|]. split; [|split; [|split; reflexivity]].
  - intros raw H. unfold resistance.
    replace (raw =? 0) with false by (symmetry; apply Z.eqb_neq; lia).
    rewrite (geb_ADC_MAX_high raw H). split; reflexivity.
  - intros raw H. unfold resistance.
    replace (raw =? 0) with false by (symmetry; apply Z.eqb_neq; lia).
    rewrite (geb_ADC_MAX_low raw H). reflexivity.
Qed.

Lemma resistance_cases_witness :
  resistance 65535 = F32.of_int 0
  /\ resistance 1800
     = F32.div SERIES_RESISTOR
         (F32.sub (F32.div ADC_MAX (F32.of_int 1800)) (F32.of_int 1)).
Proof.
  split.
  - apply (proj1 (proj2 resistance_cases) 65535). lia.
  - apply (proj1 (proj2 (proj2 resistance_cases)) 1800). lia.
Defined.

(** The rounding of the three [float] operations moves the result by at
    most 1/50000 of the exact quotient. *)
Lemma resistance_accuracy raw :
  0 < raw < 4095 ->
  (Qabs (F32.to_Q (resistance raw) - resistance_exact raw)
   <= resistance_exact raw * (1 # 50000))%Q.
Proof.
  intros H. apply Qle_bool_iff.
  apply (forallb_codes resistance_close 1 4094);
    [vm_compute; reflexivity|lia].
Qed.

Lemma Q2R_inject_Z z : Q2R (inject_Z z) = IZR z.
Proof.
  unfold Q2R, inject_Z; cbn [Qnum Qden]. rewrite Rinv_1. ring.
Qed.

(** The exact quotient of the specification is the resistance of the ideal
    model. *)
Lemma resistance_exact_ideal r :
  0 < r < 4095 -> Q2R (resistance_exact r) = Ideal.resistance r.
Proof.
  intros H. rewrite (IdealFacts.resistance_interior r H).
  destruct (IdealFacts.divider_bounds r H) as [Hd _].
  assert (Hr : ~ (inject_Z r == 0)%Q).
  { unfold Qeq, inject_Z; cbn [Qnum Qden]. lia. }
  assert (E : Q2R (4095 / inject_Z r - 1) = (4095 / IZR r - 1)%R).
  { rewrite Q2R_minus, Q2R_div, Q2R_inject_Z by exact Hr.
    change 4095%Q with (inject_Z 4095). change 1%Q with (inject_Z 1).
    rewrite !Q2R_inject_Z. reflexivity. }
  assert (Hd' : ~ (4095 / inject_Z r - 1 == 0)%Q).
  { intros Hz. apply Qeq_eqR in Hz. rewrite E in Hz.
    change 0%Q with (inject_Z 0) in Hz. rewrite Q2R_inject_Z in Hz. lra. }
  unfold resistance_exact. rewrite Q2R_div, E by exact Hd'.
  change 10000%Q with (inject_Z 10000). rewrite Q2R_inject_Z. reflexivity.
Qed.

Lemma resistance_exact_increasing r1 r2 :
  0 < r1 -> r1 < r2 -> r2 < 4095 ->
  (resistance_exact r1 < resistance_exact r2)%Q.
Proof.
  intros H0 H12 Hmax. apply Rlt_Qlt.
  rewrite !resistance_exact_ideal by lia.
  apply IdealFacts.ideal_resistance_increasing; assumption.
Qed.

(** The [float] resistance of the sketch stays within 1/50000 of the ideal
    model's. *)
Lemma resistance_float_near_ideal r :
  0 < r < 4095 ->
  (Ideal.resistance r * (1 - 1 / 50000)
   <= Q2R (F32.to_Q (resistance r))
   <= Ideal.resistance r * (1 + 1 / 50000))%R.
Proof.
  intros H.
  pose proof (resistance_accuracy r H) as Ha.
  apply Qabs_Qle_condition in Ha as [Hlo Hhi].
  apply Qle_Rle in Hlo, Hhi.
  rewrite Q2R_opp, Q2R_mult, Q2R_minus in Hlo.
  rewrite Q2R_mult, Q2R_minus in Hhi.
  rewrite (resistance_exact_ideal r H) in Hlo, Hhi.
  assert (Hc : Q2R (1 # 50000) = (1 / 50000)%R).
  { unfold Q2R; cbn [Qnum Qden]. lra. }
  rewrite Hc in Hlo, Hhi. lra.
Qed.

Lemma resistance_valid raw :
  0 < raw < 4095 ->
  F32.valid (resistance raw) = true /\ F32.is_finite (resistance raw) = true.
Proof.
  intros H. apply andb_prop.
  apply (forallb_codes resistance_finite_ok 1 4094);
    [vm_compute; reflexivity|lia].
Qed.

Lemma resistance_scaled_step r :
  1 <= r < 4094 ->
  F32.scaled (resistance r) < F32.scaled (resistance (r + 1)).
Proof.
  intros H. apply Z.ltb_lt.
  assert (Hok : resistance_step_ok r = true).
  { apply (forallb_codes resistance_step_ok 1 4093);
      [vm_compute; reflexivity|lia]. }
  unfold resistance_step_ok in Hok.
  apply andb_prop in Hok as [_ Hok]. exact Hok.
Qed.

(** C2, as stated, fails already on the first two codes: the resistance of
    code 1 is not above that of code 2, it is below. *)
Lemma resistance_not_decreasing :
  (0 < 1 < 2 /\ 2 < 4095)
  /\ F32.gtb (resistance 1) (resistance 2) = false
  /\ F32.ltb (resistance 1) (resistance 2) = true
  /\ (resistance_exact 1 < resistance_exact 2)%Q.
Proof.
  split; [lia|]. repeat split.
Qed.

(** Growth of the [float] resistance over the interior codes, as [<] of C
    and as [<] of the numbers. *)
Lemma resistance_monotone r1 r2 :
  0 < r1 -> r1 < r2 -> r2 < 4095 ->
  F32.ltb (resistance r1) (resistance r2) = true
  /\ (F32.to_Q (resistance r1) < F32.to_Q (resistance r2))%Q.
Proof.
  intros H0 H12 Hmax.
  destruct (resistance_valid r1 ltac:(lia)) as [V1 F1].
  destruct (resistance_valid r2 ltac:(lia)) as [V2 F2].
  assert (Hs : F32.scaled (resistance r1) < F32.scaled (resistance r2)).
  { apply (increasing_by_steps (fun r => F32.scaled (resistance r)) 1 4094);
      [exact resistance_scaled_step|lia|lia|lia]. }
  assert (Hq : (F32.to_Q (resistance r1) < F32.to_Q (resistance r2))%Q).
  { rewrite Qlt_alt, (F32Facts.Qcompare_scaled _ _ V1 V2).
    apply Z.compare_lt_iff. exact Hs. }
  split; [|exact Hq].
  apply (F32Facts.ltb_to_Q _ _ V1 V2 F1 F2). exact Hq.
Qed.

(** C2, amended: on the open interval (0, ADC_MAX) the resistance estimate
    [R_S / (ADC_MAX / r - 1)] is strictly increasing in the raw code: for
    0 < r1 < r2 < ADC_MAX, resistance(r1) < resistance(r2), in the [float]
    arithmetic of the sketch and for the exact quotient alike. *)
Theorem resistance_increasing r1 r2 :
  0 < r1 -> r1 < r2 -> r2 < 4095 ->
  F32.ltb (resistance r1) (resistance r2) = true
  /\ (F32.to_Q (resistance r1) < F32.to_Q (resistance r2))%Q
  /\ (resistance_exact r1 < resistance_exact r2)%Q.
Proof.
  intros H0 H12 Hmax.
  destruct (resistance_monotone r1 r2 H0 H12 Hmax) as [Hb Hq].
  split; [exact Hb|]. split; [exact Hq|].
  apply resistance_exact_increasing; assumption.
Qed.

Lemma resistance_increasing_witness :
  F32.ltb (resistance 1800) (resistance 1801) = true.
Proof.
  apply (resistance_increasing 1800 1801); lia.
Defined.

(** ** Thermal model: temperature *)

(** ** Soundness of the certificates *)
Module ExpCert.
Local Open Scope R_scope.

Lemma exp_pow2 t k : exp t ^ (2 ^ k) = exp (2 ^ k * t).
Proof.
  induction k as [|k IH].
  - simpl. rewrite !Rmult_1_r, Rmult_1_l. reflexivity.
  - replace (2 ^ S k)%nat with (2 ^ k * 2)%nat by (simpl; lia).
    rewrite pow_mult, IH. simpl pow at 1. rewrite Rmult_1_r, <- exp_plus.
    f_equal. simpl. ring.
Qed.

Lemma two_w_pos : 0 < IZR (2 ^ cert_w).
Proof. apply IZR_lt. reflexivity. Qed.

Lemma shiftr_w c : Z.shiftr c cert_w = (c / 2 ^ cert_w)%Z.
Proof. apply Z.shiftr_div_pow2. discriminate. Qed.

Lemma sqr_down_sound k : forall c y,
  (0 <= c)%Z -> IZR c / IZR (2 ^ cert_w) <= y ->
  IZR (sqr_down k c) / IZR (2 ^ cert_w) <= y ^ (2 ^ k).
Proof.
  pose proof two_w_pos as HS.
  induction k as [|k IH]; intros c y Hc Hy; cbn [sqr_down].
  - change (2 ^ 0)%nat with 1%nat. rewrite pow_1. lra.
  - replace (2 ^ S k)%nat with (2 * 2 ^ k)%nat by (simpl; lia).
    rewrite pow_mult, shiftr_w. apply IH.
    + apply Z.div_pos; [nia|reflexivity].
    + assert (Hd : IZR (c * c / 2 ^ cert_w) * IZR (2 ^ cert_w)
                   <= IZR c * IZR c).
      { rewrite <- !mult_IZR. apply IZR_le.
        rewrite Z.mul_comm. apply Z.mul_div_le. reflexivity. }
      assert (H0 : 0 <= IZR c / IZR (2 ^ cert_w)).
      { apply Rmult_le_pos; [apply IZR_le; exact Hc|].
        apply Rlt_le, Rinv_0_lt_compat, HS. }
      apply Rle_trans with ((IZR c / IZR (2 ^ cert_w)) ^ 2).
      * apply Rmult_le_reg_r with (IZR (2 ^ cert_w) * IZR (2 ^ cert_w));
          [nra|].
        rewrite <- Rsqr_pow2. unfold Rsqr. field_simplify; [|lra|lra]. nra.
      * apply pow_incr. lra.
Qed.

Lemma sqr_up_sound k : forall c y,
  (0 <= c)%Z -> 0 <= y -> y <= IZR c / IZR (2 ^ cert_w) ->
  y ^ (2 ^ k) <= IZR (sqr_up k c) / IZR (2 ^ cert_w).
Proof.
  pose proof two_w_pos as HS.
  induction k as [|k IH]; intros c y Hc Hy0 Hy; cbn [sqr_up].
  - change (2 ^ 0)%nat with 1%nat. rewrite pow_1. lra.
  - replace (2 ^ S k)%nat with (2 * 2 ^ k)%nat by (simpl; lia).
    rewrite pow_mult, shiftr_w. apply IH.
    + apply Z.div_pos; [|reflexivity].
      assert (0 < 2 ^ cert_w)%Z by reflexivity. nia.
    + apply pow_le. exact Hy0.
    + assert (Hd : IZR c * IZR c
                   <= IZR ((c * c + (2 ^ cert_w - 1)) / 2 ^ cert_w)
                      * IZR (2 ^ cert_w)).
      { rewrite <- !mult_IZR. apply IZR_le.
        pose proof (Z.mod_pos_bound (c * c + (2 ^ cert_w - 1)) (2 ^ cert_w)
                      eq_refl).
        pose proof (Z.div_mod (c * c + (2 ^ cert_w - 1)) (2 ^ cert_w)
                      ltac:(discriminate)).
        lia. }
      apply Rle_trans with ((IZR c / IZR (2 ^ cert_w)) ^ 2).
      * apply pow_incr. lra.
      * apply Rmult_le_reg_r with (IZR (2 ^ cert_w) * IZR (2 ^ cert_w));
          [nra|].
        rewrite <- Rsqr_pow2. unfold Rsqr. field_simplify; [|lra|lra]. nra.
Qed.

Lemma IZR_pow2 k : IZR (2 ^ Z.of_nat k) = 2 ^ k.
Proof. now rewrite <- pow_IZR. Qed.

Lemma pow2_pos k : 0 < 2 ^ k.
Proof. apply pow_lt. lra. Qed.

Lemma exp_down_sound k a :
  (0 <= 2 ^ Z.of_nat k * Zpos (Qden a) + Qnum a)%Z ->
  IZR (exp_down k a) / IZR (2 ^ cert_w) <= exp (Q2R a).
Proof.
  intros Hnn. unfold exp_down.
  pose proof two_w_pos as HS. pose proof (pow2_pos k) as HN.
  set (d := (2 ^ Z.of_nat k * Zpos (Qden a))%Z) in *.
  assert (Hd : (0 < d)%Z).
  { unfold d. apply Z.mul_pos_pos; [apply Z.pow_pos_nonneg; lia|lia]. }
  assert (HdR : IZR d = 2 ^ k * IZR (Zpos (Qden a))).
  { unfold d. now rewrite mult_IZR, IZR_pow2. }
  assert (Hden : 0 < IZR (Zpos (Qden a))) by (apply IZR_lt; lia).
  set (t := Q2R a / 2 ^ k).
  assert (Ht : 1 + t = IZR (d + Qnum a) / IZR d).
  { unfold t, Q2R. rewrite plus_IZR, HdR. field. lra. }
  rewrite <- (Rmult_1_l (Q2R a)).
  replace (1 * Q2R a) with (2 ^ k * t) by (unfold t; field; lra).
  rewrite <- exp_pow2.
  apply Rle_trans with ((1 + t) ^ (2 ^ k)).
  - apply sqr_down_sound.
    + apply Z.div_pos; [|exact Hd].
      apply Z.mul_nonneg_nonneg; [apply Z.pow_nonneg; lia|exact Hnn].
    + rewrite Ht.
      assert (Hf : IZR (2 ^ cert_w * (d + Qnum a) / d) * IZR d
                   <= IZR (2 ^ cert_w) * IZR (d + Qnum a)).
      { rewrite <- !mult_IZR. apply IZR_le.
        rewrite Z.mul_comm. apply Z.mul_div_le. exact Hd. }
      assert (HdR' : 0 < IZR d) by (apply IZR_lt; exact Hd).
      apply Rmult_le_reg_r with (IZR (2 ^ cert_w) * IZR d); [nra|].
      field_simplify; [|lra|lra]. nra.
  - apply pow_incr. split.
    + rewrite Ht. apply Rmult_le_pos; [apply IZR_le; exact Hnn|].
      apply Rlt_le, Rinv_0_lt_compat, IZR_lt, Hd.
    + apply exp_ineq1_le.
Qed.

Lemma exp_up_sound k a :
  (0 < 2 ^ Z.of_nat k * Zpos (Qden a) - Qnum a)%Z ->
  exp (Q2R a) <= IZR (exp_up k a) / IZR (2 ^ cert_w).
Proof.
  intros Hpos. unfold exp_up.
  pose proof two_w_pos as HS. pose proof (pow2_pos k) as HN.
  set (d := (2 ^ Z.of_nat k * Zpos (Qden a))%Z) in *.
  set (d' := (d - Qnum a)%Z) in *.
  assert (Hd : (0 < d)%Z).
  { unfold d. apply Z.mul_pos_pos; [apply Z.pow_pos_nonneg; lia|lia]. }
  assert (HdR : IZR d = 2 ^ k * IZR (Zpos (Qden a))).
  { unfold d. now rewrite mult_IZR, IZR_pow2. }
  assert (Hden : 0 < IZR (Zpos (Qden a))) by (apply IZR_lt; lia).
  assert (HdR0 : 0 < IZR d) by (apply IZR_lt; exact Hd).
  assert (Hd'R0 : 0 < IZR d') by (apply IZR_lt; exact Hpos).
  set (t := Q2R a / 2 ^ k).
  assert (Ht : 1 - t = IZR d' / IZR d).
  { unfold t, Q2R, d'. rewrite minus_IZR, HdR. field. lra. }
  assert (Ht0 : 0 < 1 - t).
  { rewrite Ht. apply Rdiv_lt_0_compat; assumption. }
  rewrite <- (Rmult_1_l (Q2R a)).
  replace (1 * Q2R a) with (2 ^ k * t) by (unfold t; field; lra).
  rewrite <- exp_pow2.
  apply Rle_trans with ((/ (1 - t)) ^ (2 ^ k)).
  - apply pow_incr. split; [apply Rlt_le, exp_pos|].
    pose proof (exp_ineq1_le (- t)) as Hm.
    rewrite exp_Ropp in Hm.
    rewrite <- (Rinv_inv (exp t)).
    apply Rinv_le_contravar; lra.
  - apply sqr_up_sound.
    + apply Z.div_pos; [|exact Hpos].
      assert (0 < 2 ^ cert_w)%Z by reflexivity. nia.
    + apply Rlt_le, Rinv_0_lt_compat, Ht0.
    + rewrite Ht.
      assert (Hc : IZR (2 ^ cert_w) * IZR d
                   <= IZR ((2 ^ cert_w * d + d' - 1) / d') * IZR d').
      { rewrite <- !mult_IZR. apply IZR_le.
        pose proof (Z.mod_pos_bound (2 ^ cert_w * d + d' - 1) d' Hpos).
        pose proof (Z.div_mod (2 ^ cert_w * d + d' - 1) d' ltac:(lia)).
        lia. }
      apply Rmult_le_reg_r with (IZR (2 ^ cert_w) * IZR d'); [nra|].
      field_simplify; [|lra|lra]. nra.
Qed.

(** What the two certificates establish about the logarithm. *)
Lemma exp_below_ln k a x :
  exp_below k a x = true -> Q2R a < ln (Q2R x).
Proof.
  unfold exp_below. intros H. apply andb_prop in H as [Hg Hc].
  apply Z.ltb_lt in Hg, Hc.
  pose proof two_w_pos as HS.
  pose proof (exp_up_sound k a Hg) as Hu.
  assert (Hx : IZR (exp_up k a) / IZR (2 ^ cert_w) < Q2R x).
  { unfold Q2R.
    assert (Hden : 0 < IZR (Zpos (Qden x))) by (apply IZR_lt; lia).
    apply IZR_lt in Hc. rewrite !mult_IZR in Hc.
    apply Rmult_lt_reg_r with (IZR (2 ^ cert_w) * IZR (Zpos (Qden x)));
      [nra|].
    field_simplify; [|lra|lra]. nra. }
  rewrite <- (ln_exp (Q2R a)).
  apply ln_increasing; [apply exp_pos|lra].
Qed.

Lemma exp_above_ln k b x :
  (0 < Q2R x) -> exp_above k b x = true -> ln (Q2R x) < Q2R b.
Proof.
  unfold exp_above. intros Hx0 H. apply andb_prop in H as [Hg Hc].
  apply Z.leb_le in Hg. apply Z.ltb_lt in Hc.
  pose proof two_w_pos as HS.
  pose proof (exp_down_sound k b Hg) as Hl.
  assert (Hx : Q2R x < IZR (exp_down k b) / IZR (2 ^ cert_w)).
  { unfold Q2R.
    assert (Hden : 0 < IZR (Zpos (Qden x))) by (apply IZR_lt; lia).
    apply IZR_lt in Hc. rewrite !mult_IZR in Hc.
    apply Rmult_lt_reg_r with (IZR (2 ^ cert_w) * IZR (Zpos (Qden x)));
      [nra|].
    field_simplify; [|lra|lra]. nra. }
  rewrite <- (ln_exp (Q2R b)).
  apply ln_increasing; [exact Hx0|lra].
Qed.

End ExpCert.

(** ** Binary32 numbers between two of the same binade *)
Module Binade.

Lemma float_value_lt x y :
  F32.valid x = true -> F32.valid y = true ->
  ((float_value x < float_value y)%R <-> F32.scaled x < F32.scaled y).
Proof.
  intros Vx Vy. unfold float_value.
  rewrite <- Z.compare_lt_iff, <- (F32Facts.Qcompare_scaled x y Vx Vy),
    <- Qlt_alt.
  split; [apply Rlt_Qlt|apply Qlt_Rlt].
Qed.

Lemma float_value_le x y :
  F32.valid x = true -> F32.valid y = true ->
  ((float_value x <= float_value y)%R <-> F32.scaled x <= F32.scaled y).
Proof.
  intros Vx Vy.
  pose proof (float_value_lt y x Vy Vx) as H.
  split; intros Hle.
  - apply Z.le_ngt. intros Hc. apply H in Hc. lra.
  - apply Rnot_lt_le. intros Hc. apply H in Hc. lia.
Qed.

Lemma scaled_opp y : F32.scaled (SFopp y) = - F32.scaled y.
Proof.
  destruct y as [s| | |s m e]; try reflexivity.
  cbn. destruct s; cbn; lia.
Qed.

Lemma between_positive m1 m2 e y :
  F32.valid (S754_finite false m1 e) = true ->
  F32.valid (S754_finite false m2 e) = true ->
  F32.valid y = true -> F32.is_finite y = true ->
  F32.scaled (S754_finite false m1 e) <= F32.scaled y ->
  F32.scaled y <= F32.scaled (S754_finite false m2 e) ->
  exists m, y = S754_finite false m e /\ Zpos m1 <= Zpos m <= Zpos m2.
Proof.
  intros V1 V2 Vy Fy Hlo Hhi.
  pose proof (F32Facts.valid_finite _ _ _ V1) as (He & _).
  pose proof (F32Facts.scaled_magnitude_pos m1 e ltac:(lia)) as Hp.
  assert (Hk : 0 < 2 ^ (e + 149)) by (apply Z.pow_pos_nonneg; lia).
  cbn [F32.scaled cond_Zopp] in Hlo, Hhi.
  destruct y as [sy| | |sy my ey]; try discriminate.
  - cbn [F32.scaled] in Hlo. lia.
  - pose proof (F32Facts.valid_finite _ _ _ Vy) as (Hey & _).
    pose proof (F32Facts.scaled_magnitude_pos my ey ltac:(lia)) as Hpy.
    destruct sy; cbn [F32.scaled cond_Zopp] in Hlo, Hhi; [lia|].
    destruct (Z.lt_trichotomy ey e) as [Hlt|[Heq|Hgt]].
    + pose proof (F32Facts.scaled_exponent_lt my ey m1 e Vy V1 Hlt). lia.
    + subst ey. exists my. split; [reflexivity|]. nia.
    + pose proof (F32Facts.scaled_exponent_lt m2 e my ey V2 Vy Hgt). lia.
Qed.

Lemma between_negative m1 m2 e y :
  F32.valid (S754_finite true m1 e) = true ->
  F32.valid (S754_finite true m2 e) = true ->
  F32.valid y = true -> F32.is_finite y = true ->
  F32.scaled (S754_finite true m1 e) <= F32.scaled y ->
  F32.scaled y <= F32.scaled (S754_finite true m2 e) ->
  exists m, y = S754_finite true m e /\ Zpos m2 <= Zpos m <= Zpos m1.
Proof.
  intros V1 V2 Vy Fy Hlo Hhi.
  destruct (between_positive m2 m1 e (SFopp y)) as (m & Hy & Hm).
  - exact V2.
  - exact V1.
  - destruct y; exact Vy.
  - destruct y; exact Fy.
  - rewrite scaled_opp. cbn [F32.scaled cond_Zopp] in *. lia.
  - rewrite scaled_opp. cbn [F32.scaled cond_Zopp] in *. lia.
  - exists m. split; [|exact Hm].
    destruct y as [sy| | |sy my ey]; try discriminate.
    cbn in Hy. injection Hy as Hs <- <-.
    destruct sy; [reflexivity|discriminate].
Qed.

End Binade.

(** ** From the accuracy of [log] to a handful of candidates *)
Module Candidates.

Lemma positive_value x :
  F32.valid x = true -> 0 < F32.scaled x -> (0 < float_value x)%R.
Proof.
  intros V H.
  assert (V0 : F32.valid (S754_zero false) = true) by reflexivity.
  apply (Binade.float_value_lt (S754_zero false) x V0 V) in H.
  unfold float_value in H at 1. cbn [F32.to_Q] in H.
  change (Q2R 0) with (0 * / 1)%R in H. lra.
Qed.

(** The candidates of a centre, counted in units of [2^-149]. *)
Lemma near_scaled s m e j :
  2 < m -> -2 <= j <= 2 ->
  F32.scaled (near (s, m, e) j)
  = ((if s then - m else m) + j) * 2 ^ (e + 149).
Proof.
  intros Hm Hj. unfold near, F32.scaled.
  destruct s; cbn [cond_Zopp]; rewrite Z2Pos.id by lia; ring.
Qed.

Lemma validity_of_candidates c :
  forallb F32.valid (candidates c) = true ->
  forall j, -2 <= j <= 2 -> F32.valid (near c j) = true.
Proof.
  intros H j Hj. rewrite forallb_forall in H. apply H.
  unfold candidates.
  assert (Hc : j = -2 \/ j = -1 \/ j = 0 \/ j = 1 \/ j = 2) by lia.
  destruct Hc as [->|[->|[->|[->| ->]]]]; cbn; auto 6.
Qed.

(** A binary32 number between the outermost candidates is a candidate. *)
Lemma between_candidates c y :
  2 < snd (fst c) -> forallb F32.valid (candidates c) = true ->
  F32.valid y = true -> F32.is_finite y = true ->
  F32.scaled (near c (-2)) <= F32.scaled y <= F32.scaled (near c 2) ->
  In y (candidates c).
Proof.
  destruct c as [[s m] e]. cbn [fst snd]. intros Hm Hv Vy Fy [Hlo Hhi].
  pose proof (validity_of_candidates _ Hv (-2) ltac:(lia)) as V1.
  pose proof (validity_of_candidates _ Hv 2 ltac:(lia)) as V2.
  assert (Hj : exists j, -2 <= j <= 2 /\ y = near (s, m, e) j).
  { unfold near in *. destruct s.
    - destruct (Binade.between_negative _ _ e y V1 V2 Vy Fy Hlo Hhi)
        as (my & -> & Hmy).
      rewrite !Z2Pos.id in Hmy by lia.
      exists (m - Zpos my). split; [lia|].
      replace (m - (m - Zpos my)) with (Zpos my) by ring. reflexivity.
    - destruct (Binade.between_positive _ _ e y V1 V2 Vy Fy Hlo Hhi)
        as (my & -> & Hmy).
      rewrite !Z2Pos.id in Hmy by lia.
      exists (Zpos my - m). split; [lia|].
      replace (m + (Zpos my - m)) with (Zpos my) by ring. reflexivity. }
  destruct Hj as (j & Hj & ->). unfold candidates.
  assert (Hc : j = -2 \/ j = -1 \/ j = 0 \/ j = 1 \/ j = 2) by lia.
  destruct Hc as [->|[->|[->|[->| ->]]]]; cbn [List.map In]; auto 6.
Qed.

(** The candidates grow with their place. *)
Lemma near_increasing c i j :
  2 < snd (fst c) -> forallb F32.valid (candidates c) = true ->
  -2 <= i -> i < j -> j <= 2 ->
  (float_value (near c i) < float_value (near c j))%R.
Proof.
  intros Hm Hv Hi Hij Hj.
  pose proof (validity_of_candidates _ Hv i ltac:(lia)) as Vi.
  pose proof (validity_of_candidates _ Hv j ltac:(lia)) as Vj.
  apply (Binade.float_value_lt _ _ Vi Vj).
  destruct c as [[s m] e]. cbn [fst snd] in Hm.
  rewrite !near_scaled by lia.
  assert (He : - 149 <= e).
  { unfold near in Vi.
    apply F32Facts.valid_finite in Vi as (He & _). lia. }
  apply Z.mul_lt_mono_pos_r; [apply Z.pow_pos_nonneg; lia|lia].
Qed.

(** An accurate [log] returns one of the five candidates. *)
Lemma accurate_in_candidates c_log x c :
  log_bracket_ok x c = true -> log_accurate c_log x ->
  In (c_log x) (candidates c).
Proof.
  unfold log_bracket_ok. intros Hb (Vy & Fy & Hacc).
  repeat (apply andb_prop in Hb as [Hb ?]).
  match goal with H : exp_above _ _ _ = true |- _ => rename H into Hup end.
  match goal with H : exp_below _ _ _ = true |- _ => rename H into Hdn end.
  match goal with H : forallb _ _ = true |- _ => rename H into Hv end.
  match goal with H : (2 <? _) = true |- _ => apply Z.ltb_lt in H;
    rename H into Hm end.
  match goal with H : (0 <? _) = true |- _ => apply Z.ltb_lt in H;
    rename H into Hpos end.
  match goal with H : F32.is_finite x = true |- _ => rename H into Fx end.
  rename Hb into Vx.
  apply ExpCert.exp_below_ln in Hdn.
  apply ExpCert.exp_above_ln in Hup; [|exact (positive_value x Vx Hpos)].
  fold (float_value (near c (-1))) in Hdn.
  fold (float_value (near c 1)) in Hup.
  fold (float_value x) in Hdn, Hup.
  pose proof (validity_of_candidates _ Hv) as Vc.
  apply between_candidates; try assumption. split.
  - apply (Binade.float_value_le _ _ (Vc (-2) ltac:(lia)) Vy).
    apply Rnot_lt_le. intros Hc.
    destruct (Hacc (near c (-2)) (near c (-1))) as [H1 _].
    + apply Vc; lia.
    + destruct c as [[s m] e]; reflexivity.
    + apply Vc; lia.
    + destruct c as [[s m] e]; reflexivity.
    + apply near_increasing; try assumption; lia.
    + apply H1. split; assumption.
  - apply (Binade.float_value_le _ _ Vy (Vc 2 ltac:(lia))).
    apply Rnot_lt_le. intros Hc.
    destruct (Hacc (near c 1) (near c 2)) as [_ H2].
    + apply Vc; lia.
    + destruct c as [[s m] e]; reflexivity.
    + apply Vc; lia.
    + destruct c as [[s m] e]; reflexivity.
    + apply near_increasing; try assumption; lia.
    + apply H2. split; assumption.
Qed.

End Candidates.

(** ** The temperature the sketch computes *)
Module Thermal.

(** [temperatureC] is the statements after [log] applied to the logarithm
    of the argument. *)
Lemma temperatureC_after_log c_log adcTherm :
  temperatureC c_log adcTherm
  = steinhart_after_log (c_log (log_argument adcTherm)).
Proof. reflexivity. Qed.

Lemma fold_min_le (d : Z) l v : In v l -> fold_right Z.min d l <= v.
Proof.
  induction l as [|a l IH]; cbn [In fold_right]; [tauto|].
  intros [->|H]; [lia|]. specialize (IH H). lia.
Qed.

Lemma fold_max_ge (d : Z) l v : In v l -> v <= fold_right Z.max d l.
Proof.
  induction l as [|a l IH]; cbn [In fold_right]; [tauto|].
  intros [->|H]; [lia|]. specialize (IH H). lia.
Qed.

(** Whatever accurate [log] is linked, the temperature is finite and lies
    in the span of the argument. *)
Lemma temperature_in_span c_log x lo hi :
  temperature_span x = Some (lo, hi) -> log_accurate c_log x ->
  let t := steinhart_after_log (c_log x) in
  F32.valid t = true /\ F32.is_finite t = true
  /\ lo <= F32.scaled t <= hi.
Proof.
  intros Hs Hacc t. unfold temperature_span in Hs.
  remember (log_center x) as c eqn:Ec.
  remember (List.map steinhart_after_log (candidates c)) as ts eqn:Ets.
  remember (List.map F32.scaled ts) as vs eqn:Evs.
  remember (fold_right Z.min (hd 0 vs) vs) as mn eqn:Emn.
  remember (fold_right Z.max (hd 0 vs) vs) as mx eqn:Emx.
  destruct (log_bracket_ok x c) eqn:Hb; [|discriminate].
  destruct (forallb (fun t0 => F32.valid t0 && F32.is_finite t0) ts) eqn:Hf;
    [|discriminate].
  cbn [andb] in Hs. injection Hs as Hlo Hhi.
  pose proof (Candidates.accurate_in_candidates c_log x c Hb Hacc) as Hin.
  assert (Ht : In t ts) by (rewrite Ets; apply in_map; exact Hin).
  rewrite forallb_forall in Hf. specialize (Hf t Ht).
  apply andb_prop in Hf as [Vt Ft].
  assert (Hv : In (F32.scaled t) vs) by (rewrite Evs; apply in_map; exact Ht).
  split; [exact Vt|]. split; [exact Ft|].
  rewrite <- Hlo, <- Hhi, Emn, Emx. split.
  - apply fold_min_le. exact Hv.
  - apply fold_max_ge. exact Hv.
Qed.

Lemma span_ordered x lo hi : temperature_span x = Some (lo, hi) -> lo <= hi.
Proof.
  unfold temperature_span.
  remember (log_center x) as c eqn:Ec.
  remember (List.map steinhart_after_log (candidates c)) as ts eqn:Ets.
  remember (List.map F32.scaled ts) as vs eqn:Evs.
  remember (fold_right Z.min (hd 0 vs) vs) as mn eqn:Emn.
  remember (fold_right Z.max (hd 0 vs) vs) as mx eqn:Emx.
  destruct (_ && _); [|discriminate]. intros Hs. injection Hs as Hlo Hhi.
  assert (Hin : In (hd 0 vs) vs).
  { rewrite Evs, Ets. unfold candidates. cbn [List.map hd In]. auto. }
  pose proof (fold_min_le (hd 0 vs) vs _ Hin).
  pose proof (fold_max_ge (hd 0 vs) vs _ Hin). lia.
Qed.

Lemma spans_descend_nth l :
  spans_descend l = true ->
  forall i, (S i < List.length l)%nat ->
  exists lo1 hi1 lo2 hi2,
    nth i l None = Some (lo1, hi1) /\ nth (S i) l None = Some (lo2, hi2)
    /\ hi2 < lo1.
Proof.
  induction l as [|a l IH]; [cbn; discriminate|].
  intros H i Hi.
  destruct a as [[lo1 hi1]|]; [|discriminate].
  destruct l as [|b l]; [cbn in Hi; lia|].
  destruct b as [[lo2 hi2]|]; [|discriminate].
  cbn [spans_descend] in H. apply andb_prop in H as [Hlt Hrest].
  apply Z.ltb_lt in Hlt.
  destruct i as [|i].
  - exists lo1, hi1, lo2, hi2. cbn. auto.
  - apply (IH Hrest i). cbn [List.length] in *. lia.
Qed.

Lemma nth_codes (f : Z -> option (Z * Z)) lo n i :
  (i < n)%nat ->
  nth i (List.map f (codes lo n)) None = f (lo + Z.of_nat i).
Proof.
  intros Hi. unfold codes. rewrite List.map_map.
  rewrite (nth_indep _ None (f (lo + Z.of_nat 0)))
    by (rewrite length_map, length_seq; exact Hi).
  rewrite (map_nth (fun k => f (lo + Z.of_nat k)) (seq 0 n) 0%nat i).
  rewrite seq_nth by exact Hi. reflexivity.
Qed.

(** The one evaluation the temperature theorems rest on: the certificates
    and the spans of all interior codes. *)
Lemma all_spans_descend : spans_descend all_spans = true.
Proof. vm_compute. reflexivity. Qed.

Lemma span_step r :
  1 <= r < 4094 ->
  exists lo1 hi1 lo2 hi2,
    span_of r = Some (lo1, hi1) /\ span_of (r + 1) = Some (lo2, hi2)
    /\ hi2 < lo1.
Proof.
  intros Hr.
  destruct (spans_descend_nth all_spans all_spans_descend
              (Z.to_nat (r - 1)))
    as (lo1 & hi1 & lo2 & hi2 & H1 & H2 & Hlt).
  { unfold all_spans, codes. rewrite !length_map, length_seq. lia. }
  unfold all_spans in H1, H2.
  rewrite nth_codes in H1 by lia. rewrite nth_codes in H2 by lia.
  replace (1 + Z.of_nat (Z.to_nat (r - 1))) with r in H1 by lia.
  replace (1 + Z.of_nat (S (Z.to_nat (r - 1)))) with (r + 1) in H2 by lia.
  exists lo1, hi1, lo2, hi2. auto.
Qed.

Lemma span_defined r :
  0 < r < 4095 -> exists lo hi, span_of r = Some (lo, hi) /\ lo <= hi.
Proof.
  intros Hr.
  destruct (Z.eq_dec r 4094) as [->|Hne].
  - destruct (span_step 4093 ltac:(lia)) as (? & ? & lo & hi & _ & H & _).
    exists lo, hi. split; [exact H|]. exact (span_ordered _ _ _ H).
  - destruct (span_step r ltac:(lia)) as (lo & hi & ? & ? & H & _ & _).
    exists lo, hi. split; [exact H|]. exact (span_ordered _ _ _ H).
Qed.

(** The spans lie one below the other along the whole range. *)
Lemma spans_apart r1 r2 :
  0 < r1 -> r1 < r2 -> r2 < 4095 -> span_high r2 < span_low r1.
Proof.
  intros H0 H12 Hmax.
  assert (Hstep : forall r, 1 <= r < 4094 ->
            span_high (r + 1) < span_low r /\ span_low r <= span_high r).
  { intros r Hr.
    destruct (span_step r Hr) as (lo1 & hi1 & lo2 & hi2 & E1 & E2 & Hlt).
    unfold span_high, span_low. rewrite E1, E2.
    split; [exact Hlt|]. exact (span_ordered _ _ _ E1). }
  destruct (Z.eq_dec r2 (r1 + 1)) as [->|Hne].
  - apply Hstep. lia.
  - apply Z.lt_trans with (span_high (r1 + 1)); [|apply Hstep; lia].
    assert (Hg : - span_high (r1 + 1) < - span_high r2).
    { apply (increasing_by_steps (fun r => - span_high r) 1 4094);
        [|lia|lia|lia].
      intros r Hr. destruct (Hstep r Hr). lia. }
    lia.
Qed.

(** The sketch's temperature at an interior code lies in the span of that
    code. *)
Lemma temperature_in_span_of c_log r :
  0 < r < 4095 -> log_accurate c_log (log_argument r) ->
  F32.valid (temperatureC c_log r) = true
  /\ F32.is_finite (temperatureC c_log r) = true
  /\ span_low r <= F32.scaled (temperatureC c_log r) <= span_high r.
Proof.
  intros Hr Hacc.
  destruct (span_defined r Hr) as (lo & hi & E & _).
  rewrite temperatureC_after_log.
  unfold span_low, span_high. rewrite E.
  exact (temperature_in_span c_log _ lo hi E Hacc).
Qed.

Lemma temperature_monotone c_log r1 r2 :
  0 < r1 -> r1 < r2 -> r2 < 4095 ->
  log_accurate c_log (log_argument r1) ->
  log_accurate c_log (log_argument r2) ->
  F32.ltb (temperatureC c_log r2) (temperatureC c_log r1) = true
  /\ (F32.to_Q (temperatureC c_log r2) < F32.to_Q (temperatureC c_log r1))%Q.
Proof.
  intros H0 H12 Hmax A1 A2.
  destruct (temperature_in_span_of c_log r1 ltac:(lia) A1) as (V1 & F1 & B1).
  destruct (temperature_in_span_of c_log r2 ltac:(lia) A2) as (V2 & F2 & B2).
  pose proof (spans_apart r1 r2 H0 H12 Hmax) as Hs.
  assert (Hq : (F32.to_Q (temperatureC c_log r2)
                < F32.to_Q (temperatureC c_log r1))%Q).
  { rewrite Qlt_alt, (F32Facts.Qcompare_scaled _ _ V2 V1).
    apply Z.compare_lt_iff. lia. }
  split; [|exact Hq].
  apply (F32Facts.ltb_to_Q _ _ V2 V1 F2 F1). exact Hq.
Qed.

(** The nearest candidate is an accurate logarithm wherever the bracket
    is certified. *)
Lemma nearest_accurate x :
  log_bracket_ok x (log_center x) = true -> log_accurate log_nearest x.
Proof.
  intros Hb. unfold log_accurate.
  change (log_nearest x) with (near (log_center x) 0).
  remember (log_center x) as c eqn:Ec. clear Ec.
  pose proof Hb as Hb'. unfold log_bracket_ok in Hb'.
  repeat (apply andb_prop in Hb' as [Hb' ?]).
  match goal with H : exp_above _ _ _ = true |- _ => rename H into Hup end.
  match goal with H : exp_below _ _ _ = true |- _ => rename H into Hdn end.
  match goal with H : forallb _ _ = true |- _ => rename H into Hv end.
  match goal with H : (2 <? _) = true |- _ => apply Z.ltb_lt in H;
    rename H into Hm end.
  match goal with H : (0 <? _) = true |- _ => apply Z.ltb_lt in H;
    rename H into Hpos end.
  match goal with H : F32.is_finite x = true |- _ => rename H into Fx end.
  rename Hb' into Vx.
  apply ExpCert.exp_below_ln in Hdn.
  apply ExpCert.exp_above_ln in Hup;
    [|exact (Candidates.positive_value x Vx Hpos)].
  fold (float_value (near c (-1))) in Hdn.
  fold (float_value (near c 1)) in Hup.
  fold (float_value x) in Hdn, Hup.
  pose proof (Candidates.validity_of_candidates _ Hv) as Vc.
  pose proof (fun i j => Candidates.near_increasing c i j Hm Hv) as Hinc.
  assert (Hbetween : forall z,
            F32.valid z = true -> F32.is_finite z = true ->
            (float_value (near c (-1)) < float_value z)%R ->
            (float_value z < float_value (near c 1))%R ->
            float_value z = float_value (near c 0)).
  { intros z Vz Fz H1 H2.
    assert (Hin : In z (candidates c)).
    { apply Candidates.between_candidates; try assumption. split.
      - apply (Binade.float_value_le _ _ (Vc (-2) ltac:(lia)) Vz).
        pose proof (Hinc (-2) (-1) ltac:(lia) ltac:(lia) ltac:(lia)). lra.
      - apply (Binade.float_value_le _ _ Vz (Vc 2 ltac:(lia))).
        pose proof (Hinc 1 2 ltac:(lia) ltac:(lia) ltac:(lia)). lra. }
    unfold candidates in Hin. cbn [List.map In] in Hin.
    pose proof (Hinc (-2) (-1) ltac:(lia) ltac:(lia) ltac:(lia)).
    pose proof (Hinc 1 2 ltac:(lia) ltac:(lia) ltac:(lia)).
    destruct Hin as [<-|[<-|[<-|[<-|[<-|[]]]]]]; try reflexivity; lra. }
  split; [apply Vc; lia|]. split; [destruct c as [[s m] e]; reflexivity|].
  intros z1 z2 V1 F1 V2 F2 H12.
  pose proof (Hinc (-1) 0 ltac:(lia) ltac:(lia) ltac:(lia)) as Hm1.
  pose proof (Hinc 0 1 ltac:(lia) ltac:(lia) ltac:(lia)) as Hp1.
  split; intros [Ha Hb0].
  - pose proof (Hbetween z1 V1 F1 ltac:(lra) ltac:(lra)). lra.
  - pose proof (Hbetween z2 V2 F2 ltac:(lra) ltac:(lra)). lra.
Qed.

End Thermal.

Module ThermalAt0.

Local Open Scope R_scope.

(** The value of a valid binary32 number from its count of [2^-149]. *)
Lemma float_value_scaled x :
  F32.valid x = true -> float_value x = IZR (F32.scaled x) / IZR (2 ^ 149).
Proof.
  intros V. unfold float_value.
  rewrite (Qeq_eqR _ _ (F32Facts.to_Q_scaled x V)).
  unfold Q2R. cbn [Qnum Qden]. reflexivity.
Qed.

Lemma float_value_between x n1 n2 d :
  F32.valid x = true -> (0 < d)%Z ->
  (n1 * 2 ^ 149 <= F32.scaled x * d)%Z ->
  (F32.scaled x * d <= n2 * 2 ^ 149)%Z ->
  IZR n1 / IZR d <= float_value x <= IZR n2 / IZR d.
Proof.
  intros V Hd H1 H2. rewrite (float_value_scaled x V).
  assert (HS : 0 < IZR (2 ^ 149)) by (apply IZR_lt; reflexivity).
  assert (HD : 0 < IZR d) by (apply IZR_lt; exact Hd).
  apply IZR_le in H1, H2. rewrite !mult_IZR in H1, H2.
  split.
  - apply Rmult_le_reg_r with (IZR d * IZR (2 ^ 149)); [nra|].
    field_simplify; [|lra|lra]. nra.
  - apply Rmult_le_reg_r with (IZR d * IZR (2 ^ 149)); [nra|].
    field_simplify; [|lra|lra]. nra.
Qed.

(** The logarithm of 100, between two neighbours of its binary32 value. *)
Lemma ln_100_bracket : 9657741 / 2097152 < ln 100 < 9657743 / 2097152.
Proof.
  assert (H100 : Q2R 100 = 100) by (unfold Q2R; cbn [Qnum Qden]; lra).
  split.
  - pose proof (ExpCert.exp_below_ln 27 (9657741 # 2097152) 100) as H.
    rewrite H100 in H. unfold Q2R in H. cbn [Qnum Qden] in H.
    apply H. vm_compute. reflexivity.
  - pose proof (ExpCert.exp_above_ln 27 (9657743 # 2097152) 100) as H.
    rewrite H100 in H. unfold Q2R in H. cbn [Qnum Qden] in H.
    apply H; [lra|]. vm_compute. reflexivity.
Qed.

(** The expression of the specification for raw code 0. *)
Lemma expression_bounds :
  - 51.9054
  < 1 / (ln (1000000 / 10000) / 3950 + 1 / 298.15) - 273.15
  < - 51.9052.
Proof.
  replace (1000000 / 10000) with 100 by lra.
  destruct ln_100_bracket as [Hlo Hhi].
  set (i := ln 100 / 3950 + 1 / 298.15).
  assert (H1 : / 221.2448 < i) by (unfold i; lra).
  assert (H2 : i < / 221.2446) by (unfold i; lra).
  assert (Hpos : 0 < i) by lra.
  assert (H3 : / i < 221.2448).
  { rewrite <- (Rinv_inv 221.2448).
    apply Rinv_lt_contravar; [|exact H1].
    apply Rmult_lt_0_compat; lra. }
  assert (H4 : 221.2446 < / i).
  { rewrite <- (Rinv_inv 221.2446) at 1.
    apply Rinv_lt_contravar; [|exact H2].
    apply Rmult_lt_0_compat; lra. }
  unfold Rdiv. lra.
Qed.

Lemma log_argument_0 : log_argument 0 = F32.of_int 100.
Proof. reflexivity. Qed.

Lemma span_at_0 :
  exists lo hi,
    span_of 0 = Some (lo, hi)
    /\ (- 5190532 * 2 ^ 149 <= lo * 100000)%Z
    /\ (hi * 100000 <= - 5190529 * 2 ^ 149)%Z.
Proof.
  eexists. eexists. split; [vm_compute; reflexivity|].
  split; vm_compute; discriminate.
Qed.

(** With an accurate [log] the sketch's temperature at raw code 0 is a
    finite number between -51.90532 and -51.90529. *)
Lemma temperature_at_0_bounds c_log :
  log_accurate c_log (log_argument 0) ->
  F32.valid (temperatureC c_log 0) = true
  /\ F32.is_finite (temperatureC c_log 0) = true
  /\ - 51.90532 <= float_value (temperatureC c_log 0) <= - 51.90529.
Proof.
  intros Hacc.
  destruct span_at_0 as (lo & hi & E & Hlo & Hhi).
  rewrite Thermal.temperatureC_after_log.
  destruct (Thermal.temperature_in_span c_log _ lo hi E Hacc)
    as (V & F & Hb).
  split; [exact V|]. split; [exact F|].
  pose proof (float_value_between _ (- 5190532) (- 5190529) 100000 V
                ltac:(lia) ltac:(lia) ltac:(lia)) as H.
  lra.
Qed.

End ThermalAt0.

(** C3, as stated, fails on the first two codes, with the logarithm
    rounded to the nearest binary32 number: the temperature of code 1 is not
    below that of code 2. *)
Lemma temperature_not_increasing :
  (0 < 1 < 2 /\ 2 < 4095)
  /\ log_accurate log_nearest (log_argument 1)
  /\ log_accurate log_nearest (log_argument 2)
  /\ F32.ltb (temperatureC log_nearest 1) (temperatureC log_nearest 2) = false.
Proof.
  split; [lia|]. split; [|split].
  - apply Thermal.nearest_accurate. vm_compute. reflexivity.
  - apply Thermal.nearest_accurate. vm_compute. reflexivity.
  - vm_compute. reflexivity.
Qed.

(** C3, amended: the temperature the sketch derives is a strictly decreasing
    function of the raw thermistor code on (0, ADC_MAX), whatever accurate
    [log] is linked: for r1 < r2, temperatureC(r2) < temperatureC(r1); the
    resistance is strictly increasing in the raw code and the temperature
    decreases as the resistance grows. *)
Theorem temperature_decreasing_in_raw c_log r1 r2 :
  0 < r1 -> r1 < r2 -> r2 < 4095 ->
  log_accurate c_log (log_argument r1) ->
  log_accurate c_log (log_argument r2) ->
  F32.ltb (temperatureC c_log r2) (temperatureC c_log r1) = true
  /\ (F32.to_Q (temperatureC c_log r2) < F32.to_Q (temperatureC c_log r1))%Q
  /\ F32.ltb (resistance r1) (resistance r2) = true.
Proof.
  intros H0 H12 Hmax A1 A2.
  destruct (Thermal.temperature_monotone c_log r1 r2 H0 H12 Hmax A1 A2)
    as [Hb Hq].
  split; [exact Hb|]. split; [exact Hq|].
  apply resistance_monotone; assumption.
Qed.

Lemma temperature_decreasing_in_raw_witness :
  F32.ltb (temperatureC log_nearest 1801) (temperatureC log_nearest 1800)
  = true.
Proof.
  apply (temperature_decreasing_in_raw log_nearest 1800 1801);
    try lia; apply Thermal.nearest_accurate; vm_compute; reflexivity.
Defined.

(** C7, as stated, fails: with the logarithm rounded to the nearest binary32
    number the temperature at raw code 0 is nowhere near -86.7, and neither
    is the expression. *)
Lemma temperature_at_0_not_minus_86_7 :
  log_accurate log_nearest (log_argument 0)
  /\ ~ (Rabs (float_value (temperatureC log_nearest 0) - - 86.7) <= 0.05)%R
  /\ ~ (Rabs (1 / (ln (1000000 / 10000) / 3950 + 1 / 298.15) - 273.15
              - - 86.7) <= 0.05)%R.
Proof.
  assert (Hacc : log_accurate log_nearest (log_argument 0)).
  { apply Thermal.nearest_accurate. vm_compute. reflexivity. }
  split; [exact Hacc|]. split; intros H.
  - destruct (ThermalAt0.temperature_at_0_bounds log_nearest Hacc)
      as (_ & _ & Hlo & _).
    pose proof (Rle_abs (float_value (temperatureC log_nearest 0) - - 86.7)).
    lra.
  - pose proof ThermalAt0.expression_bounds as [Hlo _].
    pose proof (Rle_abs (1 / (ln (1000000 / 10000) / 3950 + 1 / 298.15)
                         - 273.15 - - 86.7)).
    lra.
Qed.

(** C7, amended: at raw code 0 (resistance 1,000,000) the sketch hands
    exactly 100 to [log], and with an accurate [log] the temperature it
    computes is a finite number within 0.001 of
    [1/(ln(1,000,000/10,000)/3950 + 1/298.15) - 273.15], which is
    approximately -51.9. *)
Theorem temperature_at_0_value c_log :
  log_accurate c_log (log_argument 0) ->
  log_argument 0 = F32.of_int 100
  /\ F32.valid (temperatureC c_log 0) = true
  /\ F32.is_finite (temperatureC c_log 0) = true
  /\ (Rabs (float_value (temperatureC c_log 0)
            - (1 / (ln (1000000 / 10000) / 3950 + 1 / 298.15) - 273.15))
      <= 1 / 1000)%R
  /\ (Rabs (float_value (temperatureC c_log 0) - - 51.9) <= 0.05)%R.
Proof.
  intros Hacc.
  destruct (ThermalAt0.temperature_at_0_bounds c_log Hacc) as (V & F & Hb).
  pose proof ThermalAt0.expression_bounds as He.
  split; [exact ThermalAt0.log_argument_0|].
  split; [exact V|]. split; [exact F|].
  split; apply Rabs_le; lra.
Qed.

Lemma temperature_at_0_value_witness :
  (Rabs (float_value (temperatureC log_nearest 0) - - 51.9) <= 0.05)%R.
Proof.
  apply (temperature_at_0_value log_nearest).
  apply Thermal.nearest_accurate. vm_compute. reflexivity.
Defined.

(** ** Irradiance model *)

Lemma wrap32_small z : - 2^31 <= z < 2^31 -> wrap32 z = z.
Proof.
  intros H. unfold wrap32.
  rewrite Z.mod_small by lia. lia.
Qed.

(** On the ADC's range [map] overflows nowhere and its division is exact
    integer division of two non-negative numbers. *)
Lemma map_adc raw :
  0 <= raw <= 4095 -> map raw 4095 0 0 100 = (4095 - raw) * 100 / 4095.
Proof.
  intros H. unfold map.
  change (wrap32 (0 - 4095)) with (- 4095).
  change (wrap32 (100 - 0)) with 100.
  cbv [Z.eqb]. rewrite (wrap32_small (raw - 4095)) by lia.
  rewrite (wrap32_small ((raw - 4095) * 100)) by lia.
  replace ((raw - 4095) * 100) with (- ((4095 - raw) * 100)) by ring.
  change (- 4095) with (- (4095)).
  rewrite Z.quot_opp_opp by lia.
  rewrite Z.quot_div_nonneg by lia.
  assert (0 <= (4095 - raw) * 100 / 4095 <= 100).
  { split.
    - apply Z.div_pos; lia.
    - apply Z.div_le_upper_bound; lia. }
  rewrite Z.add_0_r.
  rewrite (wrap32_small ((4095 - raw) * 100 / 4095)) by lia.
  apply wrap32_small. lia.
Qed.

(** The two [if]s clamp whatever [map] returns. *)
Lemma lightPercent_clamped adcLDR : 0 <= lightPercent adcLDR <= 100.
Proof.
  unfold lightPercent.
  generalize (map adcLDR 4095 0 0 100). intros m.
  destruct (m <? 0) eqn:Hneg.
  - cbn. lia.
  - apply Z.ltb_ge in Hneg.
    destruct (m >? 100) eqn:Hbig; [lia|].
    rewrite Z.gtb_ltb in Hbig. apply Z.ltb_ge in Hbig. lia.
Qed.

Lemma lightPercent_adc raw :
  0 <= raw <= 4095 -> lightPercent raw = (4095 - raw) * 100 / 4095.
Proof.
  intros H. unfold lightPercent. rewrite (map_adc raw H).
  assert (0 <= (4095 - raw) * 100 / 4095 <= 100).
  { split.
    - apply Z.div_pos; lia.
    - apply Z.div_le_upper_bound; lia. }
  destruct (_ <? 0) eqn:Hneg; [apply Z.ltb_lt in Hneg; lia|].
  destruct (_ >? 100) eqn:Hbig; [|reflexivity].
  rewrite Z.gtb_ltb in Hbig. apply Z.ltb_lt in Hbig. lia.
Qed.

(** C5: the light percentage is 100 at raw code 0, 0 at raw code 4095, and an
    integer between 0 and 100 for every raw code of the 12-bit ADC. *)
Theorem lightPercent_range :
  lightPercent 0 = 100 /\ lightPercent 4095 = 0 /\
  forall raw, 0 <= raw <= 4095 -> 0 <= lightPercent raw <= 100.
Proof.
  split; [reflexivity|]. split; [reflexivity|].
  intros raw _. apply lightPercent_clamped.
Qed.

Lemma lightPercent_range_witness :
  0 <= 2048 <= 4095 /\ 0 <= lightPercent 2048 <= 100.
Proof.
  split; [lia|].
  apply (proj2 (proj2 lightPercent_range) 2048). lia.
Defined.

(** C6, as stated, fails: at mid-scale the exact value is 49.98..., whose
    nearest integer is 50, and the sketch reports 49. *)
Lemma lightPercent_not_nearest :
  0 <= 2048 <= 4095 /\ lightPercent 2048 = 49 /\
  ~ is_nearest_integer (lightPercent 2048) (percent_exact 2048).
Proof.
  split; [lia|]. split; [reflexivity|].
  unfold is_nearest_integer. intros H.
  vm_compute in H. apply H. reflexivity.
Qed.

(** C6, amended: for every raw code of the ADC the light percentage is the
    exact value [100 - (raw / ADC_MAX) * 100] with its fraction cut off
    (rounded down), so it lies within 1 below the exact value. *)
Theorem lightPercent_truncates raw :
  0 <= raw <= 4095 ->
  lightPercent raw = Qfloor (percent_exact raw) /\
  (inject_Z (lightPercent raw) <= percent_exact raw
     < inject_Z (lightPercent raw) + 1)%Q.
Proof.
  intros H.
  assert (E : lightPercent raw = Qfloor (percent_exact raw)).
  { rewrite (lightPercent_adc raw H).
    unfold percent_exact, Qfloor, Qminus, Qdiv, Qmult, Qplus, Qopp, Qinv,
      inject_Z; cbn -[Z.mul Z.div Z.add].
    replace (100 * 4095 + - (raw * 1 * 100) * 1) with ((4095 - raw) * 100)
      by ring.
    reflexivity. }
  split; [exact E|].
  rewrite E. split.
  - apply Qfloor_le.
  - rewrite <- (inject_Z_plus _ 1). apply Qlt_floor.
Qed.

Lemma lightPercent_truncates_witness :
  0 <= 500 <= 4095 /\ lightPercent 500 = 87 /\
  lightPercent 500 = Qfloor (percent_exact 500).
Proof.
  split; [lia|]. split; [reflexivity|].
  apply (lightPercent_truncates 500). lia.
Defined.

(** ** Status classifier *)

Lemma classify_gtb th t :
  classify th t = HIGH_TEMP_WARNING <-> F32.gtb t th = true.
Proof.
  unfold classify. destruct (F32.gtb t th); split; congruence.
Qed.

(** The [if] of [sketch_feb5a.ino] is the classifier, with ["OK"] as the
    normal message. *)
Lemma sketch_feb5a_status c_log adcTherm adcLDR :
  let out := sketch_feb5a.loop c_log adcTherm adcLDR in
  sketch_feb5a.statusMsg out
  = match classify sketch_feb5a.TEMP_THRESHOLD (sketch_feb5a.temp out) with
    | HIGH_TEMP_WARNING => msg_WARNING
    | NORMAL => msg_OK
    end.
Proof.
  intros out. subst out. unfold sketch_feb5a.loop, classify.
  cbn [sketch_feb5a.statusMsg sketch_feb5a.temp].
  destruct (F32.gtb _ _); reflexivity.
Qed.

(** The [if] of [SolarPanel.ino] is the classifier, with ["System Normal"]
    as the normal message. *)
Lemma SolarPanel_status c_log s i :
  SolarPanel.due s i = true ->
  let s' := SolarPanel.loop c_log s i in
  SolarPanel.currentStatus s'
  = match classify SolarPanel.TEMP_THRESHOLD (SolarPanel.currentTemp s') with
    | HIGH_TEMP_WARNING => msg_WARNING
    | NORMAL => msg_NORMAL
    end.
Proof.
  intros Hdue s'. subst s'. unfold SolarPanel.loop, classify. rewrite Hdue.
  destruct (F32.gtb (temperatureC c_log (SolarPanel.adcTherm i))
              SolarPanel.TEMP_THRESHOLD) eqn:E;
    cbn [SolarPanel.currentStatus SolarPanel.currentTemp];
    rewrite E; reflexivity.
Qed.

(** C4: the classifier answers HIGH_TEMP_WARNING exactly when the temperature
    is strictly above the threshold, and NORMAL when the two are equal; the
    status of both sketches is this classifier at 30.0 and at 32.5. *)
Theorem classify_strict :
  (forall th t,
      F32.valid th = true -> F32.valid t = true ->
      F32.is_finite th = true -> F32.is_finite t = true ->
      (classify th t = HIGH_TEMP_WARNING <-> (F32.to_Q th < F32.to_Q t)%Q)
      /\ ((F32.to_Q t == F32.to_Q th)%Q -> classify th t = NORMAL))
  /\ (forall th, classify th S754_nan = NORMAL)
  /\ (F32.to_Q sketch_feb5a.TEMP_THRESHOLD == 30)%Q
  /\ (F32.to_Q SolarPanel.TEMP_THRESHOLD == 65 # 2)%Q
  /\ (forall c_log adcTherm adcLDR,
        let out := sketch_feb5a.loop c_log adcTherm adcLDR in
        sketch_feb5a.statusMsg out
        = match classify sketch_feb5a.TEMP_THRESHOLD (sketch_feb5a.temp out) with
          | HIGH_TEMP_WARNING => msg_WARNING
          | NORMAL => msg_OK
          end)
  /\ (forall c_log s i,
        SolarPanel.due s i = true ->
        let s' := SolarPanel.loop c_log s i in
        SolarPanel.currentStatus s'
        = match classify SolarPanel.TEMP_THRESHOLD (SolarPanel.currentTemp s') with
          | HIGH_TEMP_WARNING => msg_WARNING
          | NORMAL => msg_NORMAL
          end).
Proof.
  split; [|split; [|split; [|split; [|split]]]].
  - intros th t Vth Vt Fth Ft.
    rewrite classify_gtb. unfold F32.gtb. fold (F32.ltb th t).
    pose proof (F32Facts.ltb_to_Q th t Vth Vt Fth Ft) as L.
    split; [exact L|].
    intros E. unfold classify, F32.gtb. fold (F32.ltb th t).
    destruct (F32.ltb th t) eqn:Hlt; [|reflexivity].
    assert (Hq := proj1 L eq_refl).
    rewrite E in Hq. now apply Qlt_irrefl in Hq.
  - intros th. unfold classify, F32.gtb, SFltb.
    destruct th; reflexivity.
  - reflexivity.
  - reflexivity.
  - exact sketch_feb5a_status.
  - exact SolarPanel_status.
Qed.

Lemma classify_strict_witness :
  (classify SolarPanel.TEMP_THRESHOLD (F32.of_int 33) = HIGH_TEMP_WARNING
   <-> (F32.to_Q SolarPanel.TEMP_THRESHOLD < F32.to_Q (F32.of_int 33))%Q)
  /\ classify SolarPanel.TEMP_THRESHOLD SolarPanel.TEMP_THRESHOLD = NORMAL.
Proof.
  split.
  - apply (proj1 classify_strict SolarPanel.TEMP_THRESHOLD (F32.of_int 33));
      reflexivity.
  - apply (proj1 classify_strict SolarPanel.TEMP_THRESHOLD
             SolarPanel.TEMP_THRESHOLD); reflexivity.
Defined.

(** ** Status strings and the telemetry store *)

Lemma append_assoc (a b c : string) : ((a ++ b) ++ c = a ++ (b ++ c))%string.
Proof.
  induction a as [|ch a IH]; cbn; [reflexivity|].
  now rewrite IH.
Qed.

Module SolarPanelFacts.
Import SolarPanel.
Local Open Scope string_scope.

(** The three values the status global ever holds. *)
Lemma reachable_status c_log s :
  reachable c_log s ->
  currentStatus s = msg_OK \/ currentStatus s = msg_NORMAL
  \/ currentStatus s = msg_WARNING.
Proof.
  induction 1 as [|s i _ IH]; [now left|].
  unfold loop. destruct (due s i); [|exact IH].
  destruct (F32.gtb _ _); cbn; auto.
Qed.

(** The status field closes the payload and holds the status global as it
    is. *)
Lemma handleReadings_status String_of_float s :
  exists head,
    handleReadings String_of_float s
    = head ++ dq ++ "status" ++ dq ++ ":" ++ dq ++ currentStatus s ++ dq ++ "}".
Proof.
  exists ("{" ++ (dq ++ "temp" ++ dq ++ ":") ++ String_of_float (currentTemp s) ++ ","
            ++ (dq ++ "light" ++ dq ++ ":")
            ++ String_of_int (currentLightPercent s) ++ ",").
  unfold handleReadings.
  repeat rewrite append_assoc. reflexivity.
Qed.

End SolarPanelFacts.

(** C8: in every reachable state the status written into the [/readings]
    payload is ["OK"], ["System Normal"], or contains ["WARNING"]. *)
Theorem readings_status_contract c_log String_of_float s :
  SolarPanel.reachable c_log s ->
  exists head status,
    SolarPanel.handleReadings String_of_float s
    = (head ++ SolarPanel.dq ++ "status" ++ SolarPanel.dq ++ ":"
         ++ SolarPanel.dq ++ status ++ SolarPanel.dq ++ "}")%string
    /\ status = SolarPanel.currentStatus s
    /\ (status = "OK"%string \/ status = "System Normal"%string
        \/ includes "WARNING" status = true).
Proof.
  intros Hr.
  destruct (SolarPanelFacts.handleReadings_status String_of_float s) as [head E].
  exists head, (SolarPanel.currentStatus s).
  split; [exact E|]. split; [reflexivity|].
  destruct (SolarPanelFacts.reachable_status c_log s Hr) as [H|[H|H]];
    rewrite H; auto.
Qed.

Lemma readings_status_contract_witness :
  exists head status,
    SolarPanel.handleReadings String_fixed
      (SolarPanel.loop log_linear SolarPanel.initial
         {| SolarPanel.millis_test := 1001; SolarPanel.millis_store := 1001;
            SolarPanel.adcTherm := 1000; SolarPanel.adcLDR := 500 |})
    = (head ++ SolarPanel.dq ++ "status" ++ SolarPanel.dq ++ ":"
         ++ SolarPanel.dq ++ status ++ SolarPanel.dq ++ "}")%string
    /\ status = "WARNING: HIGH TEMP!"%string.
Proof.
  destruct (readings_status_contract log_linear String_fixed _
              (SolarPanel.reach_loop log_linear _
                 {| SolarPanel.millis_test := 1001; SolarPanel.millis_store := 1001;
                    SolarPanel.adcTherm := 1000; SolarPanel.adcLDR := 500 |}
                 (SolarPanel.reach_setup log_linear)))
    as (head & status & E & Es & _).
  exists head, status. split; [exact E|].
  rewrite Es. vm_compute. reflexivity.
Defined.

(** C10: in every reachable state, the initial one included, the stored
    status contains ["WARNING"] exactly when the stored temperature is
    strictly above the threshold. *)
Theorem warning_iff_above_threshold c_log s :
  SolarPanel.reachable c_log s ->
  (includes "WARNING" (SolarPanel.currentStatus s) = true
   <-> F32.gtb (SolarPanel.currentTemp s) SolarPanel.TEMP_THRESHOLD = true)
  /\ (F32.valid (SolarPanel.currentTemp s) = true ->
      F32.is_finite (SolarPanel.currentTemp s) = true ->
      (includes "WARNING" (SolarPanel.currentStatus s) = true
       <-> (65 # 2 < F32.to_Q (SolarPanel.currentTemp s))%Q)).
Proof.
  intros Hr.
  assert (Hinv : includes "WARNING" (SolarPanel.currentStatus s) = true
                 <-> F32.gtb (SolarPanel.currentTemp s)
                       SolarPanel.TEMP_THRESHOLD = true).
  { induction Hr as [|s i _ IH].
    - split; intros H; vm_compute in H; discriminate.
    - unfold SolarPanel.loop.
      destruct (SolarPanel.due s i); [|exact IH].
      destruct (F32.gtb (temperatureC c_log (SolarPanel.adcTherm i))
                  SolarPanel.TEMP_THRESHOLD) eqn:E;
        cbn [SolarPanel.currentStatus SolarPanel.currentTemp]; rewrite E.
      + split; reflexivity.
      + split; intros H; [vm_compute in H|]; discriminate. }
  split; [exact Hinv|].
  intros V F. rewrite Hinv. unfold F32.gtb.
  fold (F32.ltb SolarPanel.TEMP_THRESHOLD (SolarPanel.currentTemp s)).
  assert (Vth : F32.valid SolarPanel.TEMP_THRESHOLD = true) by reflexivity.
  assert (Fth : F32.is_finite SolarPanel.TEMP_THRESHOLD = true) by reflexivity.
  rewrite (F32Facts.ltb_to_Q _ _ Vth V Fth F).
  assert (Eth : (F32.to_Q SolarPanel.TEMP_THRESHOLD == 65 # 2)%Q)
    by reflexivity.
  rewrite Eth. reflexivity.
Qed.

Lemma warning_iff_above_threshold_witness :
  let s := SolarPanel.loop log_linear SolarPanel.initial
             {| SolarPanel.millis_test := 1001; SolarPanel.millis_store := 1002;
                SolarPanel.adcTherm := 1000; SolarPanel.adcLDR := 500 |} in
  includes "WARNING" (SolarPanel.currentStatus s) = true
  <-> F32.gtb (SolarPanel.currentTemp s) SolarPanel.TEMP_THRESHOLD = true.
Proof.
  apply (warning_iff_above_threshold log_linear).
  apply SolarPanel.reach_loop, SolarPanel.reach_setup.
Defined.

(** ** Determinism of the derivation *)

(** C9: the derived temperature, light percentage and status depend on the
    two raw codes only: two evaluations on the same pair agree in all three
    components, whatever the state and the clock were before. *)
Theorem derivation_deterministic c_log :
  (forall adcTherm1 adcLDR1 adcTherm2 adcLDR2,
      adcTherm1 = adcTherm2 -> adcLDR1 = adcLDR2 ->
      sketch_feb5a.loop c_log adcTherm1 adcLDR1
      = sketch_feb5a.loop c_log adcTherm2 adcLDR2)
  /\ (forall s1 s2 i1 i2,
        SolarPanel.due s1 i1 = true -> SolarPanel.due s2 i2 = true ->
        SolarPanel.adcTherm i1 = SolarPanel.adcTherm i2 ->
        SolarPanel.adcLDR i1 = SolarPanel.adcLDR i2 ->
        SolarPanel.snapshot (SolarPanel.loop c_log s1 i1)
        = SolarPanel.snapshot (SolarPanel.loop c_log s2 i2)).
Proof.
  split.
  - intros ? ? ? ? -> ->. reflexivity.
  - intros s1 s2 i1 i2 D1 D2 Et El.
    unfold SolarPanel.loop. rewrite D1, D2, Et, El.
    destruct (F32.gtb (temperatureC c_log (SolarPanel.adcTherm i2))
                SolarPanel.TEMP_THRESHOLD);
      unfold SolarPanel.snapshot;
      cbn [SolarPanel.currentTemp SolarPanel.currentLightPercent
             SolarPanel.currentStatus];
      reflexivity.
Qed.

Lemma derivation_deterministic_witness :
  SolarPanel.snapshot
    (SolarPanel.loop log_linear SolarPanel.initial
       {| SolarPanel.millis_test := 1001; SolarPanel.millis_store := 1002;
          SolarPanel.adcTherm := 1800; SolarPanel.adcLDR := 500 |})
  = SolarPanel.snapshot
      (SolarPanel.loop log_linear
         {| SolarPanel.currentTemp := F32.of_int 40;
            SolarPanel.currentLightPercent := 3;
            SolarPanel.currentStatus := msg_WARNING;
            SolarPanel.lastTime := 5000;
            SolarPanel.buzzerDuty := 128 |}
         {| SolarPanel.millis_test := 7000; SolarPanel.millis_store := 7001;
            SolarPanel.adcTherm := 1800; SolarPanel.adcLDR := 500 |}).
Proof.
  apply (proj2 (derivation_deterministic log_linear)); reflexivity.
Defined.
